(** * Rate limiting strategies of [ratelimit.py]

    A shallow embedding of the five limiter classes
    ([FixedWindowRateLimiter], [SlidingWindowLogRateLimiter],
    [SlidingWindowCounterRateLimiter], [TokenBucketRateLimiter],
    [LeakyBucketRateLimiter]) and the properties of their two operations,
    [is_allowed] and [get_stats].

    Modelling conventions.
    - Python floats (clock readings, rates, token counts) are exact
      rationals [Q]; Python ints (limits, counters, window indices) are [Z].
    - Every [time.time()] in the source is an explicit clock reading passed
      to the operation.  [now] is the reading taken in the operation's body;
      [created] is the reading taken by the [defaultdict] factory of the two
      bucket limiters, which runs only when the key is missing, and after
      [now] has been read.
    - [self.<map>[key]] on a [defaultdict] is [getitem]: a missing key is
      inserted with the factory's value, also in [get_stats].
    - A [deque] is a list whose head is the left end.
    - The only exception the operations can raise is [ZeroDivisionError]
      (from [//] and [/] by [window_size]); it is raised before any mutation. *)

From Stdlib Require Import ZArith QArith Qround Qminmax Lqa Lia List.
From stdpp Require Import gmap strings.
Import ListNotations.

Local Open Scope Z_scope.

(** ** Python primitives *)

Inductive exn : Set := ZeroDivisionError.

Definition result (A : Type) : Type := exn + A.

Definition ok {A : Type} (a : A) : result A := inr a.
Definition raise {A : Type} (e : exn) : result A := inl e.

Definition bind {A B : Type} (r : result A) (k : A -> result B) : result B :=
  match r with
  | inl e => inl e
  | inr a => k a
  end.

Notation "'do' x <- r ; k" := (bind r (fun x => k))
  (at level 10, x name, r at level 100, k at level 200).

(** [int(a // b)] for floats: the floor of the quotient. *)
Definition floordiv (a b : Q) : result Z :=
  if Qeq_bool b 0 then raise ZeroDivisionError else ok (Qfloor (a / b)).

(** [a / b] for floats. *)
Definition truediv (a b : Q) : result Q :=
  if Qeq_bool b 0 then raise ZeroDivisionError else ok (a / b)%Q.

(** [int(x)] for a float: truncation towards zero. *)
Definition py_int (x : Q) : Z := Z.quot (Qnum x) (Zpos (Qden x)).

(** [a < b] and [a >= b] on numbers. *)
Definition ltb (a b : Q) : bool :=
  match Qcompare a b with Lt => true | _ => false end.
Definition geb (a b : Q) : bool := negb (ltb a b).

(** [min(a, b)] and [max(a, b)]: the first argument wins ties. *)
Definition py_min (a b : Q) : Q := if ltb b a then b else a.
Definition py_max (a b : Q) : Q := if ltb a b then b else a.

(** [d[key]] on a [defaultdict] whose factory returns [dflt]. *)
Definition getitem {V : Type} (dflt : V) (d : gmap string V) (key : string)
  : V * gmap string V :=
  match d !! key with
  | Some v => (v, d)
  | None => (dflt, <[key := dflt]> d)
  end.

(** ** Fixed window *)

Module FixedWindow.

Record counter_data := { count : Z; window_start : Z }.

Record t := {
  limit : Z;
  window_size : Q;
  counters : gmap string counter_data
}.

Record stats := {
  requests_made : Z;
  stats_limit : Z;
  remaining : Z;
  stats_window_start : Z
}.

Definition default : counter_data := {| count := 0; window_start := 0 |}.

Definition init (limit : Z) (window_size : Q) : result t :=
  ok {| limit := limit; window_size := window_size; counters := ∅ |}.

Definition set_counters (self : t) (c : gmap string counter_data) : t :=
  {| limit := limit self; window_size := window_size self; counters := c |}.

Definition is_allowed (self : t) (now : Q) (key : string) : result (bool * t) :=
  do current_window <- floordiv now (window_size self);
  let '(counter_data, counters) := getitem default (counters self) key in
  let counter_data :=
    if negb (window_start counter_data =? current_window)
    then {| count := 0; window_start := current_window |}
    else counter_data in
  if count counter_data <? limit self
  then
    let counter_data :=
      {| count := count counter_data + 1;
         window_start := window_start counter_data |} in
    ok (true, set_counters self (<[key := counter_data]> counters))
  else
    ok (false, set_counters self (<[key := counter_data]> counters)).

Definition get_stats (self : t) (key : string) : stats * t :=
  let '(counter_data, counters) := getitem default (counters self) key in
  ({| requests_made := count counter_data;
      stats_limit := limit self;
      remaining := Z.max 0 (limit self - count counter_data);
      stats_window_start := window_start counter_data |},
   set_counters self counters).

(** A sequence of [is_allowed] calls, each with its clock reading. *)
Fixpoint run (self : t) (calls : list (Q * string)) : result (list bool * t) :=
  match calls with
  | [] => ok ([], self)
  | (now, key) :: calls =>
      do r <- is_allowed self now key;
      do rs <- run (snd r) calls;
      ok (fst r :: fst rs, snd rs)
  end.

End FixedWindow.

(** ** Sliding window log *)

Module SlidingWindowLog.

Record t := {
  limit : Z;
  window_size : Q;
  logs : gmap string (list Q)
}.

Record stats := {
  requests_made : Z;
  stats_limit : Z;
  remaining : Z;
  oldest_request : option Q
}.

Definition init (limit : Z) (window_size : Q) : result t :=
  ok {| limit := limit; window_size := window_size; logs := ∅ |}.

Definition set_logs (self : t) (l : gmap string (list Q)) : t :=
  {| limit := limit self; window_size := window_size self; logs := l |}.

(** [while request_log and request_log[0] < cutoff_time: popleft()] *)
Fixpoint purge (cutoff_time : Q) (request_log : list Q) : list Q :=
  match request_log with
  | [] => []
  | ts :: rest =>
      if ltb ts cutoff_time then purge cutoff_time rest else request_log
  end.

Definition is_allowed (self : t) (now : Q) (key : string) : bool * t :=
  let '(request_log, logs) := getitem [] (logs self) key in
  let cutoff_time := (now - window_size self)%Q in
  let request_log := purge cutoff_time request_log in
  if Z.of_nat (length request_log) <? limit self
  then (true, set_logs self (<[key := request_log ++ [now]]> logs))
  else (false, set_logs self (<[key := request_log]> logs)).

Definition get_stats (self : t) (now : Q) (key : string) : stats * t :=
  let '(request_log, logs) := getitem [] (logs self) key in
  let cutoff_time := (now - window_size self)%Q in
  let active_requests :=
    Z.of_nat (length (List.filter (fun ts => geb ts cutoff_time) request_log)) in
  ({| requests_made := active_requests;
      stats_limit := limit self;
      remaining := Z.max 0 (limit self - active_requests);
      oldest_request := head request_log |},
   set_logs self logs).

Fixpoint run (self : t) (calls : list (Q * string)) : list bool * t :=
  match calls with
  | [] => ([], self)
  | (now, key) :: calls =>
      let r := is_allowed self now key in
      let rs := run (snd r) calls in
      (fst r :: fst rs, snd rs)
  end.

End SlidingWindowLog.

(** ** Sliding window counter *)

Module SlidingWindowCounter.

Record window_data := { current : Z; previous : Z; current_start : Z }.

Record t := {
  limit : Z;
  window_size : Q;
  windows : gmap string window_data
}.

Record stats := {
  weighted_count : Q;
  current_window_requests : Z;
  previous_window_requests : Z;
  stats_limit : Z;
  remaining : Q
}.

Definition default : window_data :=
  {| current := 0; previous := 0; current_start := 0 |}.

Definition init (limit : Z) (window_size : Q) : result t :=
  ok {| limit := limit; window_size := window_size; windows := ∅ |}.

Definition set_windows (self : t) (w : gmap string window_data) : t :=
  {| limit := limit self; window_size := window_size self; windows := w |}.

(** The rollover block of [is_allowed]. *)
Definition slide (current_window : Z) (wd : window_data) : window_data :=
  if negb (current_start wd =? current_window)
  then
    {| current := 0;
       previous :=
         if current_start wd =? current_window - 1 then current wd else 0;
       current_start := current_window |}
  else wd.

(** The three lines under "Calculate weighted count", the same in
    [is_allowed] and [get_stats]. *)
Definition weigh (self : t) (now : Q) (current_window : Z) (wd : window_data)
  : result Q :=
  let time_in_current_window :=
    (now - inject_Z current_window * window_size self)%Q in
  do ratio <- truediv time_in_current_window (window_size self);
  let weight := (1 - ratio)%Q in
  ok (inject_Z (previous wd) * weight + inject_Z (current wd))%Q.

Definition is_allowed (self : t) (now : Q) (key : string) : result (bool * t) :=
  do current_window <- floordiv now (window_size self);
  let '(wd, windows) := getitem default (windows self) key in
  let wd := slide current_window wd in
  do weighted_count <- weigh self now current_window wd;
  if ltb weighted_count (inject_Z (limit self))
  then
    let wd :=
      {| current := current wd + 1;
         previous := previous wd;
         current_start := current_start wd |} in
    ok (true, set_windows self (<[key := wd]> windows))
  else
    ok (false, set_windows self (<[key := wd]> windows)).

Definition get_stats (self : t) (now : Q) (key : string) : result (stats * t) :=
  do current_window <- floordiv now (window_size self);
  let '(wd, windows) := getitem default (windows self) key in
  do weighted_count <- weigh self now current_window wd;
  ok ({| weighted_count := weighted_count;
         current_window_requests := current wd;
         previous_window_requests := previous wd;
         stats_limit := limit self;
         remaining := py_max 0 (inject_Z (limit self) - weighted_count) |},
      set_windows self windows).

End SlidingWindowCounter.

(** ** Token bucket *)

Module TokenBucket.

Record bucket := { tokens : Q; last_refill : Q }.

Record t := {
  capacity : Q;
  refill_rate : Q;
  buckets : gmap string bucket
}.

Record stats := {
  available_tokens : Q;
  stats_capacity : Q;
  stats_refill_rate : Q;
  stats_last_refill : Q
}.

(** The factory closes over [capacity] and reads the clock itself. *)
Definition default (self : t) (created : Q) : bucket :=
  {| tokens := capacity self; last_refill := created |}.

Definition init (capacity refill_rate : Q) : result t :=
  ok {| capacity := capacity; refill_rate := refill_rate; buckets := ∅ |}.

Definition set_buckets (self : t) (b : gmap string bucket) : t :=
  {| capacity := capacity self; refill_rate := refill_rate self; buckets := b |}.

Definition is_allowed (self : t) (now created : Q) (key : string)
    (tokens_requested : Z) : bool * t :=
  let '(bucket, buckets) := getitem (default self created) (buckets self) key in
  let time_passed := (now - last_refill bucket)%Q in
  let tokens_to_add := (time_passed * refill_rate self)%Q in
  let bucket :=
    {| tokens := py_min (capacity self) (tokens bucket + tokens_to_add);
       last_refill := now |} in
  if geb (tokens bucket) (inject_Z tokens_requested)
  then
    let bucket :=
      {| tokens := (tokens bucket - inject_Z tokens_requested)%Q;
         last_refill := last_refill bucket |} in
    (true, set_buckets self (<[key := bucket]> buckets))
  else
    (false, set_buckets self (<[key := bucket]> buckets)).

Definition get_stats (self : t) (created : Q) (key : string) : stats * t :=
  let '(bucket, buckets) := getitem (default self created) (buckets self) key in
  ({| available_tokens := tokens bucket;
      stats_capacity := capacity self;
      stats_refill_rate := refill_rate self;
      stats_last_refill := last_refill bucket |},
   set_buckets self buckets).

(** One call: the two clock readings, the key and the cost. *)
Record call := { now : Q; created : Q; key : string; cost : Z }.

Fixpoint run (self : t) (calls : list call) : list bool * t :=
  match calls with
  | [] => ([], self)
  | c :: calls =>
      let r := is_allowed self (now c) (created c) (key c) (cost c) in
      let rs := run (snd r) calls in
      (fst r :: fst rs, snd rs)
  end.

End TokenBucket.

(** ** Leaky bucket *)

Module LeakyBucket.

Record bucket := { queue : list Q; last_leak : Q }.

Record t := {
  capacity : Z;
  leak_rate : Q;
  buckets : gmap string bucket
}.

Record stats := {
  queue_size : Z;
  stats_capacity : Z;
  stats_leak_rate : Q;
  stats_last_leak : Q
}.

Definition default (created : Q) : bucket :=
  {| queue := []; last_leak := created |}.

Definition init (capacity : Z) (leak_rate : Q) : result t :=
  ok {| capacity := capacity; leak_rate := leak_rate; buckets := ∅ |}.

Definition set_buckets (self : t) (b : gmap string bucket) : t :=
  {| capacity := capacity self; leak_rate := leak_rate self; buckets := b |}.

(** [for _ in range(n): queue.popleft()]; an empty range for [n <= 0].
    The caller bounds [n] by the queue length, so [popleft] never raises. *)
Definition leak (n : Z) (queue : list Q) : list Q := drop (Z.to_nat n) queue.

Definition is_allowed (self : t) (now created : Q) (key : string) : bool * t :=
  let '(bucket, buckets) := getitem (default created) (buckets self) key in
  let time_passed := (now - last_leak bucket)%Q in
  let requests_to_leak := py_int (time_passed * leak_rate self) in
  let queue :=
    leak (Z.min requests_to_leak (Z.of_nat (length (queue bucket))))
         (queue bucket) in
  if Z.of_nat (length queue) <? capacity self
  then
    (true,
     set_buckets self
       (<[key := {| queue := queue ++ [now]; last_leak := now |}]> buckets))
  else
    (false,
     set_buckets self
       (<[key := {| queue := queue; last_leak := now |}]> buckets)).

Definition get_stats (self : t) (created : Q) (key : string) : stats * t :=
  let '(bucket, buckets) := getitem (default created) (buckets self) key in
  ({| queue_size := Z.of_nat (length (queue bucket));
      stats_capacity := capacity self;
      stats_leak_rate := leak_rate self;
      stats_last_leak := last_leak bucket |},
   set_buckets self buckets).

Record call := { now : Q; created : Q; key : string }.

Fixpoint run (self : t) (calls : list call) : list bool * t :=
  match calls with
  | [] => ([], self)
  | c :: calls =>
      let r := is_allowed self (now c) (created c) (key c) in
      let rs := run (snd r) calls in
      (fst r :: fst rs, snd rs)
  end.

(** The queue stored for a key; a missing key has none. *)
Definition queue_of (self : t) (key : string) : list Q :=
  match buckets self !! key with
  | Some b => queue b
  | None => []
  end.

End LeakyBucket.

(** ** Scenarios *)

(** [limit=5, window_size=10]; five calls at t=9.9, five at t=10.1. *)
Definition double_burst : list (Q * string) :=
  repeat (99 # 10, "user1"%string) 5 ++ repeat (101 # 10, "user1"%string) 5.

(** [limit=3, window_size=5]; t = 0, 0, 0, 1, 6. *)
Definition log_accuracy : list (Q * string) :=
  [(0%Q, "user3"%string); (0%Q, "user3"%string); (0%Q, "user3"%string);
   (1%Q, "user3"%string); (6%Q, "user3"%string)].

Definition fixed_5_10 : FixedWindow.t :=
  {| FixedWindow.limit := 5; FixedWindow.window_size := 10;
     FixedWindow.counters := ∅ |}.

Definition log_3_5 : SlidingWindowLog.t :=
  {| SlidingWindowLog.limit := 3; SlidingWindowLog.window_size := 5;
     SlidingWindowLog.logs := ∅ |}.

(** The fixed window after five admissions for ["user1"] in window 0. *)
Definition fixed_5_10_full : FixedWindow.t :=
  FixedWindow.set_counters fixed_5_10
    {[ "user1"%string :=
         {| FixedWindow.count := 5; FixedWindow.window_start := 0 |} ]}.

(** A sliding window counter in window 1 with 4 requests in window 0 and 2
    in window 1. *)
Definition counter_10_10 : SlidingWindowCounter.t :=
  {| SlidingWindowCounter.limit := 10;
     SlidingWindowCounter.window_size := 10;
     SlidingWindowCounter.windows :=
       {[ "user4"%string :=
            {| SlidingWindowCounter.current := 2;
               SlidingWindowCounter.previous := 4;
               SlidingWindowCounter.current_start := 1 |} ]} |}.

(** [TokenBucketRateLimiter(capacity=5, refill_rate=1.0)], as in the demo. *)
Definition token_5_1 : TokenBucket.t :=
  {| TokenBucket.capacity := 5; TokenBucket.refill_rate := 1;
     TokenBucket.buckets := ∅ |}.

(** [TokenBucketRateLimiter(capacity=1, refill_rate=1000)]. *)
Definition token_1_1000 : TokenBucket.t :=
  {| TokenBucket.capacity := 1; TokenBucket.refill_rate := 1000;
     TokenBucket.buckets := ∅ |}.

(** [TokenBucketRateLimiter(capacity=1, refill_rate=1.0)]. *)
Definition token_1_1 : TokenBucket.t :=
  {| TokenBucket.capacity := 1; TokenBucket.refill_rate := 1;
     TokenBucket.buckets := ∅ |}.

(** Calls whose clock readings never go back: each call reads [now] no
    earlier than [t] and than the previous call, costs are positive, and the
    factory's reading [created] is not after the call's own [now]. *)
Fixpoint token_calls_from (t : Q) (calls : list TokenBucket.call) : Prop :=
  match calls with
  | [] => True
  | c :: calls =>
      (t <= TokenBucket.now c)%Q /\
      (TokenBucket.created c <= TokenBucket.now c)%Q /\
      0 < TokenBucket.cost c /\
      token_calls_from (TokenBucket.now c) calls
  end.

(** [LeakyBucketRateLimiter(capacity=2, leak_rate=1.0)]. *)
Definition leaky_2_1 : LeakyBucket.t :=
  {| LeakyBucket.capacity := 2; LeakyBucket.leak_rate := 1;
     LeakyBucket.buckets := ∅ |}.

(** Four calls for one key: three at t=0 (the third is refused), one at
    t=1.5 after one entry has leaked. *)
Definition leaky_calls : list LeakyBucket.call :=
  [ {| LeakyBucket.now := 0; LeakyBucket.created := 0;
       LeakyBucket.key := "user5" |};
    {| LeakyBucket.now := 0; LeakyBucket.created := 0;
       LeakyBucket.key := "user5" |};
    {| LeakyBucket.now := 0; LeakyBucket.created := 0;
       LeakyBucket.key := "user5" |};
    {| LeakyBucket.now := 3 # 2; LeakyBucket.created := 3 # 2;
       LeakyBucket.key := "user5" |} ].


(** The burst of the demo: six calls for one key while the clock reads 0. *)
Definition token_burst : list TokenBucket.call :=
  repeat {| TokenBucket.now := 0; TokenBucket.created := 0;
            TokenBucket.key := "user2"; TokenBucket.cost := 1 |} 6.


(** ** Traces *)

(** How many calls of a trace were let through. *)
Fixpoint count_true (bs : list bool) : Z :=
  match bs with
  | [] => 0
  | b :: bs => (if b then 1 else 0) + count_true bs
  end.

(** The count [is_allowed] starts from for [key] when the clock is in window
    [w]: the stored count if the record is of that window, 0 after the
    rollover or for a key it has to create. *)
Definition fixed_effective_count (self : FixedWindow.t) (key : string) (w : Z) : Z :=
  match FixedWindow.counters self !! key with
  | Some r =>
      if FixedWindow.window_start r =? w then FixedWindow.count r else 0
  | None => 0
  end.

(** All calls of a trace are for [key] and read the clock in window [w]. *)
Definition fixed_calls_in_window (self : FixedWindow.t) (key : string) (w : Z)
    (calls : list (Q * string)) : Prop :=
  Forall (fun c => snd c = key /\
                   floordiv (fst c) (FixedWindow.window_size self) = ok w) calls.

(** Seven calls for one key while the clock reads 9.9, as the demo's loop. *)
Definition fixed_seven_calls : list (Q * string) :=
  repeat (99 # 10, "user1"%string) 7.

(** A list of timestamps in which no entry is below an earlier one. *)
Fixpoint ascending (l : list Q) : Prop :=
  match l with
  | [] => True
  | ts :: l => Forall (fun ts' => (ts <= ts')%Q) l /\ ascending l
  end.

(** A trace whose clock readings never go back, starting no earlier than [t]. *)
Fixpoint clock_monotone (t : Q) (calls : list (Q * string)) : Prop :=
  match calls with
  | [] => True
  | c :: calls => (t <= fst c)%Q /\ clock_monotone (fst c) calls
  end.

(** The last clock reading of a trace that starts at [t]. *)
Fixpoint last_time (t : Q) (calls : list (Q * string)) : Q :=
  match calls with
  | [] => t
  | c :: calls => last_time (fst c) calls
  end.

(** Three calls for one key at 0, 2 and 4, then one for another key at 5. *)
Definition log_calls : list (Q * string) :=
  [(0%Q, "user3"%string); (2%Q, "user3"%string); (4%Q, "user3"%string);
   (5%Q, "user6"%string)].

(** A sequence of [is_allowed] calls on the sliding window counter. *)
Fixpoint counter_run (self : SlidingWindowCounter.t) (calls : list (Q * string))
  : result (list bool * SlidingWindowCounter.t) :=
  match calls with
  | [] => ok ([], self)
  | (now, key) :: calls =>
      do r <- SlidingWindowCounter.is_allowed self now key;
      do rs <- counter_run (snd r) calls;
      ok (fst r :: fst rs, snd rs)
  end.

(** The offset of [now] in its window, as a fraction of the window. *)
Definition window_ratio (window_size now : Q) : Q :=
  ((now - inject_Z (Qfloor (now / window_size)) * window_size) / window_size)%Q.

(** The weighted count of a window record at [now]. *)
Definition weighted (window_size now : Q)
    (wd : SlidingWindowCounter.window_data) : Q :=
  (inject_Z (SlidingWindowCounter.previous wd) *
     (1 - window_ratio window_size now) +
   inject_Z (SlidingWindowCounter.current wd))%Q.

(** A key whose previous window (window 0) was used up, now in window 1. *)
Definition counter_5_10_full : SlidingWindowCounter.t :=
  {| SlidingWindowCounter.limit := 5;
     SlidingWindowCounter.window_size := 10;
     SlidingWindowCounter.windows :=
       {[ "user4"%string :=
            {| SlidingWindowCounter.current := 5;
               SlidingWindowCounter.previous := 0;
               SlidingWindowCounter.current_start := 0 |} ]} |}.


(** Calls for [key], each at most half a leak interval after the one before
    (the first after [t]). *)
Fixpoint leaky_polls (key : string) (leak_rate t : Q)
    (calls : list LeakyBucket.call) : Prop :=
  match calls with
  | [] => True
  | c :: calls =>
      LeakyBucket.key c = key /\
      ((LeakyBucket.now c - t) * leak_rate <= 1 # 2)%Q /\
      leaky_polls key leak_rate (LeakyBucket.now c) calls
  end.

(** [leaky_2_1] with a full queue for one key. *)
Definition leaky_2_1_full : LeakyBucket.t :=
  LeakyBucket.set_buckets leaky_2_1
    {[ "user5"%string :=
         {| LeakyBucket.queue := [0; 0]%Q; LeakyBucket.last_leak := 0 |} ]}.

(** Four calls half a second apart, at 0.5, 1, 1.5 and 2. *)
Definition leaky_polling : list LeakyBucket.call :=
  [ {| LeakyBucket.now := 1 # 2; LeakyBucket.created := 1 # 2;
       LeakyBucket.key := "user5" |};
    {| LeakyBucket.now := 1; LeakyBucket.created := 1;
       LeakyBucket.key := "user5" |};
    {| LeakyBucket.now := 3 # 2; LeakyBucket.created := 3 # 2;
       LeakyBucket.key := "user5" |};
    {| LeakyBucket.now := 2; LeakyBucket.created := 2;
       LeakyBucket.key := "user5" |} ].

(** ** Call sites *)

(** [login_limiter = FixedWindowRateLimiter(limit=5, window_size=300)] *)
Definition login_limiter : result FixedWindow.t := FixedWindow.init 5 300.

(** [login_attempt(username)]; the limiter it closes over is passed in and
    returned. *)
Definition login_attempt (login_limiter : FixedWindow.t) (now : Q)
    (username : string) : result (string * FixedWindow.t) :=
  do r <- FixedWindow.is_allowed login_limiter now ("login:" +:+ username);
  if fst r
  then ok ("Login attempt allowed"%string, snd r)
  else ok ("Too many login attempts. Please wait 5 minutes."%string, snd r).

(** [api_limiter = TokenBucketRateLimiter(capacity=100, refill_rate=10)] *)
Definition api_limiter : result TokenBucket.t := TokenBucket.init 100 10.

Section ApiEndpoint.

(** The rendering of a float by the format [:.1f]. *)
Variable format_1f : Q -> string.

(** [api_endpoint(user_id, endpoint)]; the reply is the dict literal as a
    list of its items.  [created] and [created'] are the clock readings the
    factory would take in [is_allowed] and in [get_stats]. *)
Definition api_endpoint (api_limiter : TokenBucket.t) (now created created' : Q)
    (user_id endpoint : string) : list (string * string) * TokenBucket.t :=
  let key := user_id +:+ ":" +:+ endpoint in
  let r := TokenBucket.is_allowed api_limiter now created key 1 in
  if fst r
  then ([("status", "success"); ("data", "API response")]%string, snd r)
  else
    let s := TokenBucket.get_stats (snd r) created' key in
    ([("status", "rate_limited");
      ("message",
       "Rate limit exceeded. Available tokens: " +:+
       format_1f (TokenBucket.available_tokens (fst s)))]%string,
     snd s).

End ApiEndpoint.

(** The login limiter after five attempts of ["ann"] at time 0. *)
Definition login_used_up : FixedWindow.t :=
  {| FixedWindow.limit := 5; FixedWindow.window_size := 300;
     FixedWindow.counters :=
       {[ "login:ann"%string :=
            {| FixedWindow.count := 5; FixedWindow.window_start := 0 |} ]} |}.

(** The API limiter with the bucket of one key emptied at time 0. *)
Definition api_used_up : TokenBucket.t :=
  {| TokenBucket.capacity := 100; TokenBucket.refill_rate := 10;
     TokenBucket.buckets :=
       {[ "user123:/posts"%string :=
            {| TokenBucket.tokens := 0; TokenBucket.last_refill := 0 |} ]} |}.

(** * Properties *)

(** ** Comparisons *)

Lemma ltb_lt (a b : Q) : ltb a b = true <-> (a < b)%Q.
Proof.
  unfold ltb. rewrite Qlt_alt. destruct (a ?= b)%Q; split; congruence.
Qed.

Lemma ltb_ge (a b : Q) : ltb a b = false <-> (b <= a)%Q.
Proof.
  rewrite <- not_true_iff_false, ltb_lt. split.
  - apply Qnot_lt_le.
  - intros H1 H2. exact (Qlt_not_le _ _ H2 H1).
Qed.

Lemma geb_ge (a b : Q) : geb a b = true <-> (b <= a)%Q.
Proof. unfold geb. rewrite negb_true_iff. apply ltb_ge. Qed.

Lemma py_min_le_l (a b : Q) : (py_min a b <= a)%Q.
Proof.
  unfold py_min. destruct (ltb b a) eqn:E.
  - apply Qlt_le_weak, ltb_lt, E.
  - apply Qle_refl.
Qed.

Lemma py_min_ge (a b c : Q) : (c <= a)%Q -> (c <= b)%Q -> (c <= py_min a b)%Q.
Proof. intros Ha Hb. unfold py_min. destruct (ltb b a); assumption. Qed.

Lemma bind_ok {A B : Type} (a : A) (k : A -> result B) : bind (ok a) k = k a.
Proof. reflexivity. Qed.

Lemma floordiv_ok (a b : Q) :
  ~ (b == 0)%Q -> floordiv a b = ok (Qfloor (a / b)).
Proof.
  intros Hb. unfold floordiv. destruct (Qeq_bool b 0) eqn:E; [|reflexivity].
  apply Qeq_bool_eq in E. contradiction.
Qed.

Lemma truediv_ok (a b : Q) : ~ (b == 0)%Q -> truediv a b = ok (a / b)%Q.
Proof.
  intros Hb. unfold truediv. destruct (Qeq_bool b 0) eqn:E; [|reflexivity].
  apply Qeq_bool_eq in E. contradiction.
Qed.

(** Rounding: [//] floors, [int] truncates. *)
Example floordiv_negative : floordiv (-1) 10 = ok (-1).
Proof. reflexivity. Qed.

Example floordiv_by_zero : floordiv 7 0 = raise ZeroDivisionError.
Proof. reflexivity. Qed.

Example py_int_truncates : py_int (-3 # 2) = -1 /\ py_int (3 # 2) = 1.
Proof. split; reflexivity. Qed.

Example py_min_first_on_tie : py_min (2 # 2) 1 = (2 # 2)%Q.
Proof. reflexivity. Qed.

(** ** The [defaultdict] *)

Lemma getitem_present {V : Type} (dflt v : V) (d : gmap string V) (key : string) :
  d !! key = Some v -> getitem dflt d key = (v, d).
Proof. intros H. unfold getitem. rewrite H. reflexivity. Qed.

Lemma getitem_missing {V : Type} (dflt : V) (d : gmap string V) (key : string) :
  d !! key = None -> getitem dflt d key = (dflt, <[key := dflt]> d).
Proof. intros H. unfold getitem. rewrite H. reflexivity. Qed.

Lemma getitem_lookup {V : Type} (dflt : V) (d : gmap string V) (key : string) :
  (getitem dflt d key).2 !! key = Some (getitem dflt d key).1.
Proof.
  unfold getitem. destruct (d !! key) eqn:E; cbn; [exact E|].
  apply lookup_insert_eq.
Qed.

Lemma getitem_insert {V : Type} (dflt v : V) (d : gmap string V) (key : string) :
  <[key := v]> (getitem dflt d key).2 = <[key := v]> d.
Proof.
  unfold getitem. destruct (d !! key); cbn; [reflexivity|].
  apply insert_insert_eq.
Qed.

Lemma getitem_again {V : Type} (dflt dflt' : V) (d : gmap string V) (key : string) :
  getitem dflt' (getitem dflt d key).2 key = getitem dflt d key.
Proof.
  unfold getitem at 1. rewrite getitem_lookup. destruct (getitem dflt d key).
  reflexivity.
Qed.

(** ** Fixed window *)

(** C3. With [limit=5] and [window_size=10], five calls for a fresh key at
    t=9.9 followed by five at t=10.1 are all admitted: the first five fall in
    window 0, the last five in window 1, whose first call resets the count. *)
Theorem fixed_window_double_burst :
  FixedWindow.init 5 10 = ok fixed_5_10 /\
  exists final,
    FixedWindow.run fixed_5_10 double_burst =
      ok ([true; true; true; true; true; true; true; true; true; true], final) /\
    FixedWindow.counters final !! "user1"%string =
      Some {| FixedWindow.count := 5; FixedWindow.window_start := 1 |}.
Proof.
  split; [reflexivity|].
  destruct (FixedWindow.run fixed_5_10 double_burst) as [e|[bs final]] eqn:E;
    vm_compute in E; [discriminate|].
  injection E as <- <-. eexists; split; [reflexivity|]. vm_compute. reflexivity.
Qed.

(** C10. [get_stats] of the fixed window applies no rollover: for a record
    holding [n] requests of a window other than the clock's, it still reports
    [requests_made = n] and [remaining = max(0, limit - n)] (0 when the
    window was exhausted) and leaves the limiter as it is, while the next
    [is_allowed] at that clock reading resets the count and admits. *)
Theorem fixed_window_stats_no_rollover
    (self : FixedWindow.t) (now : Q) (key : string) (n w cw : Z) :
  FixedWindow.counters self !! key =
    Some {| FixedWindow.count := n; FixedWindow.window_start := w |} ->
  floordiv now (FixedWindow.window_size self) = ok cw ->
  cw <> w ->
  0 < FixedWindow.limit self ->
  FixedWindow.get_stats self key =
    ({| FixedWindow.requests_made := n;
        FixedWindow.stats_limit := FixedWindow.limit self;
        FixedWindow.remaining := Z.max 0 (FixedWindow.limit self - n);
        FixedWindow.stats_window_start := w |}, self) /\
  (FixedWindow.limit self <= n ->
   FixedWindow.remaining (fst (FixedWindow.get_stats self key)) = 0) /\
  FixedWindow.is_allowed self now key =
    ok (true,
        FixedWindow.set_counters self
          (<[key := {| FixedWindow.count := 1; FixedWindow.window_start := cw |}]>
             (FixedWindow.counters self))).
Proof.
  intros Hrec Hcw Hne Hlim.
  assert (Hstats : FixedWindow.get_stats self key =
    ({| FixedWindow.requests_made := n;
        FixedWindow.stats_limit := FixedWindow.limit self;
        FixedWindow.remaining := Z.max 0 (FixedWindow.limit self - n);
        FixedWindow.stats_window_start := w |}, self)).
  { unfold FixedWindow.get_stats, getitem. rewrite Hrec. cbn.
    destruct self; reflexivity. }
  split; [exact Hstats|]. split.
  - intros Hfull. rewrite Hstats. cbn. lia.
  - unfold FixedWindow.is_allowed. rewrite Hcw. cbn.
    unfold getitem. rewrite Hrec. cbn.
    destruct (Z.eqb_spec w cw) as [->|_]; [contradiction|]. cbn.
    destruct (Z.ltb_spec 0 (FixedWindow.limit self)) as [_|]; [reflexivity|lia].
Qed.

Lemma fixed_window_stats_no_rollover_witness :
  FixedWindow.remaining
    (fst (FixedWindow.get_stats fixed_5_10_full "user1"%string)) = 0 /\
  exists self',
    FixedWindow.is_allowed fixed_5_10_full (101 # 10) "user1"%string =
      ok (true, self').
Proof.
  destruct (fixed_window_stats_no_rollover fixed_5_10_full (101 # 10)
              "user1"%string 5 0 1) as (_ & Hrem & Hnext).
  - reflexivity.
  - reflexivity.
  - discriminate.
  - reflexivity.
  - split.
    + apply Hrem. discriminate.
    + eexists. exact Hnext.
Defined.

(** ** Sliding window log *)

Lemma purge_split (cutoff : Q) (log : list Q) :
  exists expired,
    log = expired ++ SlidingWindowLog.purge cutoff log /\
    Forall (fun ts => (ts < cutoff)%Q) expired /\
    match SlidingWindowLog.purge cutoff log with
    | [] => True
    | ts :: _ => (cutoff <= ts)%Q
    end.
Proof.
  induction log as [|ts log IH]; cbn.
  - exists []. repeat split. constructor.
  - destruct (ltb ts cutoff) eqn:E.
    + destruct IH as (expired & Heq & Hall & Hhd).
      exists (ts :: expired). cbn. split; [congruence|].
      split; [|exact Hhd]. constructor; [apply ltb_lt, E|exact Hall].
    + exists []. repeat split; [constructor|apply ltb_ge, E].
Qed.

(** C4. With [limit=3] and [window_size=5], three calls for a fresh key at
    t=0 are admitted, a fourth at t=1 is denied, and a call at t=6 is
    admitted: the stored timestamps, all 0, are below the cutoff 6-5 and are
    purged.  In general [is_allowed] first removes from the front of the log
    the entries strictly below [now - window_size], stopping at the first
    that is not, then admits iff fewer than [limit] remain, and appends
    [now] only on admission. *)
Theorem sliding_log_accuracy :
  SlidingWindowLog.init 3 5 = ok log_3_5 /\
  fst (SlidingWindowLog.run log_3_5 log_accuracy) =
    [true; true; true; false; true] /\
  SlidingWindowLog.logs (snd (SlidingWindowLog.run log_3_5 (take 4 log_accuracy)))
    !! "user3"%string = Some [0; 0; 0]%Q /\
  SlidingWindowLog.logs (snd (SlidingWindowLog.run log_3_5 log_accuracy))
    !! "user3"%string = Some [6%Q] /\
  (forall cutoff log,
     exists expired,
       log = expired ++ SlidingWindowLog.purge cutoff log /\
       Forall (fun ts => (ts < cutoff)%Q) expired /\
       match SlidingWindowLog.purge cutoff log with
       | [] => True
       | ts :: _ => (cutoff <= ts)%Q
       end) /\
  (forall self now key,
     let log :=
       SlidingWindowLog.purge (now - SlidingWindowLog.window_size self)%Q
         (default [] (SlidingWindowLog.logs self !! key)) in
     SlidingWindowLog.is_allowed self now key =
       if Z.of_nat (length log) <? SlidingWindowLog.limit self
       then (true,
             SlidingWindowLog.set_logs self
               (<[key := log ++ [now]]> (SlidingWindowLog.logs self)))
       else (false,
             SlidingWindowLog.set_logs self
               (<[key := log]> (SlidingWindowLog.logs self)))).
Proof.
  split; [reflexivity|]. split; [vm_compute; reflexivity|].
  split; [vm_compute; reflexivity|]. split; [vm_compute; reflexivity|].
  split; [exact purge_split|].
  intros self now key log. unfold SlidingWindowLog.is_allowed.
  pose proof (getitem_insert (V := list Q) [] (log ++ [now])
                (SlidingWindowLog.logs self) key) as Hyes.
  pose proof (getitem_insert (V := list Q) [] log
                (SlidingWindowLog.logs self) key) as Hno.
  assert (Hfst : (getitem [] (SlidingWindowLog.logs self) key).1 =
                 default [] (SlidingWindowLog.logs self !! key)).
  { unfold getitem. destruct (SlidingWindowLog.logs self !! key); reflexivity. }
  destruct (getitem [] (SlidingWindowLog.logs self) key) as [l logs'].
  cbn in Hyes, Hno, Hfst. subst l. fold log.
  destruct (Z.of_nat (length log) <? SlidingWindowLog.limit self);
    [rewrite Hyes|rewrite Hno]; reflexivity.
Qed.

(** ** Sliding window counter *)

Lemma window_offset (now ws : Q) :
  (0 < ws)%Q ->
  let ratio := ((now - inject_Z (Qfloor (now / ws)) * ws) / ws)%Q in
  (0 <= ratio)%Q /\ (ratio < 1)%Q.
Proof.
  intros Hws ratio.
  assert (Hr : (ratio == now / ws - inject_Z (Qfloor (now / ws)))%Q).
  { unfold ratio. field. intros H0. rewrite H0 in Hws.
    exact (Qlt_irrefl _ Hws). }
  pose proof (Qfloor_le (now / ws)) as Hlo.
  pose proof (Qlt_floor (now / ws)) as Hhi.
  rewrite inject_Z_plus in Hhi. change (inject_Z 1) with 1%Q in Hhi.
  rewrite Hr. split; lra.
Qed.

Lemma weigh_bounds (self : SlidingWindowCounter.t) (now : Q)
    (wd : SlidingWindowCounter.window_data) :
  (0 < SlidingWindowCounter.window_size self)%Q ->
  0 <= SlidingWindowCounter.current wd ->
  0 <= SlidingWindowCounter.previous wd ->
  let ws := SlidingWindowCounter.window_size self in
  let cw := Qfloor (now / ws) in
  let weight := (1 - (now - inject_Z cw * ws) / ws)%Q in
  let wc :=
    (inject_Z (SlidingWindowCounter.previous wd) * weight +
     inject_Z (SlidingWindowCounter.current wd))%Q in
  SlidingWindowCounter.weigh self now cw wd = ok wc /\
  (inject_Z (SlidingWindowCounter.current wd) <= wc)%Q /\
  (wc <= inject_Z (SlidingWindowCounter.current wd) +
         inject_Z (SlidingWindowCounter.previous wd))%Q.
Proof.
  intros Hws Hcur Hprev ws cw weight wc.
  assert (Hnz : ~ (ws == 0)%Q).
  { intros H0. unfold ws in H0. rewrite H0 in Hws. exact (Qlt_irrefl _ Hws). }
  split.
  - unfold SlidingWindowCounter.weigh. fold ws. rewrite truediv_ok by exact Hnz.
    reflexivity.
  - destruct (window_offset now ws Hws) as [Hlo Hhi]. fold cw in Hlo, Hhi.
    assert (Hp : (0 <= inject_Z (SlidingWindowCounter.previous wd))%Q).
    { change 0%Q with (inject_Z 0). rewrite <- Zle_Qle. exact Hprev. }
    unfold wc, weight.
    set (p := inject_Z (SlidingWindowCounter.previous wd)) in *.
    set (r := ((now - inject_Z cw * ws) / ws)%Q) in *.
    assert (Hpr : (0 <= p * r)%Q) by (apply Qmult_le_0_compat; assumption).
    assert (Hpr' : (0 <= p * (1 - r))%Q).
    { apply Qmult_le_0_compat; [assumption|lra]. }
    split; lra.
Qed.

Lemma slide_nonneg (cw : Z) (wd : SlidingWindowCounter.window_data) :
  0 <= SlidingWindowCounter.current wd ->
  0 <= SlidingWindowCounter.previous wd ->
  0 <= SlidingWindowCounter.current (SlidingWindowCounter.slide cw wd) /\
  0 <= SlidingWindowCounter.previous (SlidingWindowCounter.slide cw wd).
Proof.
  intros Hc Hp. unfold SlidingWindowCounter.slide.
  destruct (SlidingWindowCounter.current_start wd =? cw); cbn; [auto|].
  split; [lia|].
  destruct (SlidingWindowCounter.current_start wd =? cw - 1); lia.
Qed.

(** C5. For a window record with [current >= 0] and [previous >= 0] and a
    positive [window_size], the weighted count
    [previous * weight + current], with
    [weight = 1 - (now - window_index*window_size)/window_size] and
    [window_index = floor(now / window_size)], lies between [current] and
    [current + previous]; this holds for the value [get_stats] reports and
    for the value [is_allowed] compares with [limit] (computed on the record
    after its rollover). *)
Theorem sliding_counter_weighted_bounds
    (self : SlidingWindowCounter.t) (now : Q) (key : string) :
  let wd :=
    default SlidingWindowCounter.default
      (SlidingWindowCounter.windows self !! key) in
  let ws := SlidingWindowCounter.window_size self in
  let cw := Qfloor (now / ws) in
  let weight := (1 - (now - inject_Z cw * ws) / ws)%Q in
  let weighted (d : SlidingWindowCounter.window_data) :=
    (inject_Z (SlidingWindowCounter.previous d) * weight +
     inject_Z (SlidingWindowCounter.current d))%Q in
  let bounded (d : SlidingWindowCounter.window_data) :=
    (inject_Z (SlidingWindowCounter.current d) <= weighted d)%Q /\
    (weighted d <= inject_Z (SlidingWindowCounter.current d) +
                   inject_Z (SlidingWindowCounter.previous d))%Q in
  (0 < ws)%Q ->
  0 <= SlidingWindowCounter.current wd ->
  0 <= SlidingWindowCounter.previous wd ->
  (exists s self',
     SlidingWindowCounter.get_stats self now key = ok (s, self') /\
     SlidingWindowCounter.weighted_count s = weighted wd /\
     SlidingWindowCounter.current_window_requests s =
       SlidingWindowCounter.current wd /\
     SlidingWindowCounter.previous_window_requests s =
       SlidingWindowCounter.previous wd /\
     bounded wd) /\
  (exists self',
     SlidingWindowCounter.is_allowed self now key =
       ok (ltb (weighted (SlidingWindowCounter.slide cw wd))
               (inject_Z (SlidingWindowCounter.limit self)), self') /\
     bounded (SlidingWindowCounter.slide cw wd)).
Proof.
  intros wd ws cw weight weighted bounded Hws Hcur Hprev.
  assert (Hnz : ~ (ws == 0)%Q).
  { intros H0. rewrite H0 in Hws. exact (Qlt_irrefl _ Hws). }
  assert (Hfst : (getitem SlidingWindowCounter.default
                    (SlidingWindowCounter.windows self) key).1 = wd).
  { unfold getitem, wd.
    destruct (SlidingWindowCounter.windows self !! key); reflexivity. }
  split.
  - destruct (weigh_bounds self now wd Hws Hcur Hprev) as (Hw & Hb).
    unfold SlidingWindowCounter.get_stats. fold ws.
    rewrite floordiv_ok by exact Hnz. rewrite bind_ok. fold cw.
    destruct (getitem _ _ key) as [d windows']. cbn in Hfst. subst d.
    fold ws cw in Hw. rewrite Hw. cbn.
    eexists _, _. split; [reflexivity|]. cbn. repeat split; apply Hb.
  - destruct (slide_nonneg cw wd Hcur Hprev) as [Hc' Hp'].
    destruct (weigh_bounds self now _ Hws Hc' Hp') as (Hw & Hb).
    unfold SlidingWindowCounter.is_allowed. fold ws.
    rewrite floordiv_ok by exact Hnz. rewrite bind_ok. fold cw.
    destruct (getitem _ _ key) as [d windows']. cbn in Hfst. subst d.
    fold ws cw in Hw. rewrite Hw. cbn.
    fold weight. fold (weighted (SlidingWindowCounter.slide cw wd)).
    destruct (ltb _ _); eexists; (split; [reflexivity|exact Hb]).
Qed.

Lemma sliding_counter_weighted_bounds_witness :
  (0 < 10)%Q /\
  exists s self',
    SlidingWindowCounter.get_stats counter_10_10 15 "user4"%string =
      ok (s, self') /\
    (2 <= SlidingWindowCounter.weighted_count s)%Q /\
    (SlidingWindowCounter.weighted_count s <= 6)%Q.
Proof.
  split; [reflexivity|].
  destruct (sliding_counter_weighted_bounds counter_10_10 15 "user4"%string)
    as [(s & self' & Hs & Hw & _ & _ & Hlo & Hhi) _].
  - reflexivity.
  - vm_compute. discriminate.
  - vm_compute. discriminate.
  - exists s, self'. split; [exact Hs|]. rewrite Hw. split.
    + exact Hlo.
    + exact Hhi.
Defined.

(** ** Token bucket *)

(** The bucket [is_allowed] stores for its key. *)
Lemma token_is_allowed_lookup (self : TokenBucket.t) (now created : Q)
    (key : string) (cost : Z) :
  let b := default (TokenBucket.default self created)
             (TokenBucket.buckets self !! key) in
  let refilled :=
    py_min (TokenBucket.capacity self)
      (TokenBucket.tokens b +
       (now - TokenBucket.last_refill b) * TokenBucket.refill_rate self)%Q in
  let allowed := geb refilled (inject_Z cost) in
  TokenBucket.is_allowed self now created key cost =
    (allowed,
     TokenBucket.set_buckets self
       (<[key := {| TokenBucket.tokens :=
                      if allowed then (refilled - inject_Z cost)%Q else refilled;
                    TokenBucket.last_refill := now |}]>
          (TokenBucket.buckets self))).
Proof.
  intros b refilled allowed. unfold TokenBucket.is_allowed.
  assert (Hfst : (getitem (TokenBucket.default self created)
                    (TokenBucket.buckets self) key).1 = b).
  { unfold getitem, b. destruct (TokenBucket.buckets self !! key); reflexivity. }
  pose proof (fun v => getitem_insert (TokenBucket.default self created) v
                         (TokenBucket.buckets self) key) as Hins.
  destruct (getitem _ _ key) as [b' buckets']. cbn in Hfst, Hins. subst b'.
  cbn. fold refilled. fold allowed. destruct allowed; rewrite Hins; reflexivity.
Qed.

Lemma token_is_allowed_config (self : TokenBucket.t) (now created : Q)
    (key : string) (cost : Z) :
  let self' := snd (TokenBucket.is_allowed self now created key cost) in
  TokenBucket.capacity self' = TokenBucket.capacity self /\
  TokenBucket.refill_rate self' = TokenBucket.refill_rate self.
Proof. rewrite token_is_allowed_lookup. split; reflexivity. Qed.

(** C6. A request for more tokens than [capacity] is rejected, whatever the
    limiter's state, the key and the clock readings: [is_allowed] returns
    [false] (a plain result, the operation has no error outcome), because
    the refill caps the tokens at [capacity]. *)
Theorem token_bucket_cost_above_capacity
    (self : TokenBucket.t) (now created : Q) (key : string) (cost : Z) :
  (TokenBucket.capacity self < inject_Z cost)%Q ->
  fst (TokenBucket.is_allowed self now created key cost) = false.
Proof.
  intros Hcost. rewrite token_is_allowed_lookup. cbn.
  unfold geb. apply negb_false_iff, ltb_lt.
  eapply Qle_lt_trans; [apply py_min_le_l|exact Hcost].
Qed.

Lemma token_bucket_cost_above_capacity_witness :
  (5 < inject_Z 6)%Q /\
  fst (TokenBucket.is_allowed token_5_1 0 0 "user2"%string 6) = false.
Proof.
  split; [reflexivity|].
  apply (token_bucket_cost_above_capacity token_5_1 0 0 "user2"%string 6).
  reflexivity.
Defined.

(** The upper half of the token invariant needs nothing of the clock: from
    an empty limiter, after any calls of non-negative cost, no key holds
    more than [capacity]. *)
Lemma token_bucket_step_le_capacity (self : TokenBucket.t) (now created : Q)
    (key : string) (cost : Z) :
  0 <= cost ->
  (forall k b, TokenBucket.buckets self !! k = Some b ->
               (TokenBucket.tokens b <= TokenBucket.capacity self)%Q) ->
  let self' := snd (TokenBucket.is_allowed self now created key cost) in
  TokenBucket.capacity self' = TokenBucket.capacity self /\
  TokenBucket.refill_rate self' = TokenBucket.refill_rate self /\
  forall k b, TokenBucket.buckets self' !! k = Some b ->
              (TokenBucket.tokens b <= TokenBucket.capacity self')%Q.
Proof.
  intros Hcost Hinv. rewrite token_is_allowed_lookup. cbn.
  split; [reflexivity|]. split; [reflexivity|].
  intros k b. destruct (decide (key = k)) as [->|Hne].
  - rewrite lookup_insert_eq. intros [= <-]. cbn.
    match goal with |- context [py_min ?a ?x] =>
      pose proof (py_min_le_l a x) as Hmin end.
    assert (Hc : (0 <= inject_Z cost)%Q).
    { change 0%Q with (inject_Z 0). rewrite <- Zle_Qle. exact Hcost. }
    destruct (geb _ _); lra.
  - rewrite lookup_insert_ne by exact Hne. apply Hinv.
Qed.

Lemma token_bucket_le_capacity (capacity refill_rate : Q)
    (calls : list TokenBucket.call) :
  Forall (fun c => 0 <= TokenBucket.cost c) calls ->
  forall self,
    TokenBucket.capacity self = capacity ->
    (forall k b, TokenBucket.buckets self !! k = Some b ->
                 (TokenBucket.tokens b <= capacity)%Q) ->
    forall k b,
      TokenBucket.buckets (snd (TokenBucket.run self calls)) !! k = Some b ->
      (TokenBucket.tokens b <= capacity)%Q.
Proof.
  induction 1 as [|c calls Hc _ IH]; intros self Hcap Hinv; cbn.
  - exact Hinv.
  - subst capacity.
    destruct (token_bucket_step_le_capacity self (TokenBucket.now c)
                (TokenBucket.created c) (TokenBucket.key c)
                (TokenBucket.cost c) Hc Hinv) as (Hcap' & _ & Hinv').
    apply IH; [exact Hcap'|]. rewrite <- Hcap'. exact Hinv'.
Qed.

(** The lower half needs the clock: when no reading goes back, and the
    factory's reading is not after the reading of the call that triggers it,
    no key's tokens go below zero. *)
Lemma token_bucket_step_nonneg (self : TokenBucket.t) (t now created : Q)
    (key : string) (cost : Z) :
  (0 <= TokenBucket.capacity self)%Q ->
  (0 <= TokenBucket.refill_rate self)%Q ->
  (t <= now)%Q -> (created <= now)%Q ->
  (forall k b, TokenBucket.buckets self !! k = Some b ->
               (0 <= TokenBucket.tokens b)%Q /\
               (TokenBucket.last_refill b <= t)%Q) ->
  let self' := snd (TokenBucket.is_allowed self now created key cost) in
  forall k b, TokenBucket.buckets self' !! k = Some b ->
              (0 <= TokenBucket.tokens b)%Q /\
              (TokenBucket.last_refill b <= now)%Q.
Proof.
  intros Hcap Hrate Ht Hcreated Hinv. rewrite token_is_allowed_lookup. cbn.
  intros k b. destruct (decide (key = k)) as [->|Hne].
  - rewrite lookup_insert_eq. intros [= <-]. cbn. split; [|apply Qle_refl].
    set (b0 := default _ _).
    assert (Hb0 : (0 <= TokenBucket.tokens b0)%Q /\
                  (TokenBucket.last_refill b0 <= now)%Q).
    { unfold b0. destruct (TokenBucket.buckets self !! k) as [b1|] eqn:E; cbn.
      - destruct (Hinv k b1 E) as [Hk Hl]. split; lra.
      - split; assumption. }
    destruct Hb0 as [Htok Hlast].
    assert (Hadd : (0 <= (now - TokenBucket.last_refill b0) *
                          TokenBucket.refill_rate self)%Q).
    { apply Qmult_le_0_compat; [lra|exact Hrate]. }
    match goal with |- context [py_min ?a ?x] =>
      assert (Hmin : (0 <= py_min a x)%Q) by (apply py_min_ge; lra);
      set (refilled := py_min a x) in *
    end.
    destruct (geb refilled (inject_Z cost)) eqn:E; [|exact Hmin].
    apply geb_ge in E. lra.
  - rewrite lookup_insert_ne by exact Hne. intros Hk.
    destruct (Hinv k b Hk) as [Htok Hlast]. split; lra.
Qed.

Lemma token_bucket_nonneg (calls : list TokenBucket.call) :
  forall (self : TokenBucket.t) (t : Q),
    (0 <= TokenBucket.capacity self)%Q ->
    (0 <= TokenBucket.refill_rate self)%Q ->
    token_calls_from t calls ->
    (forall k b, TokenBucket.buckets self !! k = Some b ->
                 (0 <= TokenBucket.tokens b)%Q /\
                 (TokenBucket.last_refill b <= t)%Q) ->
    forall k b,
      TokenBucket.buckets (snd (TokenBucket.run self calls)) !! k = Some b ->
      (0 <= TokenBucket.tokens b)%Q.
Proof.
  induction calls as [|c calls IH]; intros self t Hcap Hrate Hcalls Hinv; cbn.
  - intros k b Hk. apply (Hinv k b Hk).
  - destruct Hcalls as (Ht & Hcreated & Hcost & Hrest).
    pose proof (token_bucket_step_nonneg self t (TokenBucket.now c)
                  (TokenBucket.created c) (TokenBucket.key c)
                  (TokenBucket.cost c) Hcap Hrate Ht Hcreated Hinv) as Hinv'.
    destruct (token_is_allowed_config self (TokenBucket.now c)
                (TokenBucket.created c) (TokenBucket.key c)
                (TokenBucket.cost c)) as (Hcap' & Hrate').
    apply (IH _ (TokenBucket.now c));
      [rewrite Hcap'; exact Hcap|rewrite Hrate'; exact Hrate
      |exact Hrest|exact Hinv'].
Qed.

(** The demo's burst on a still clock: five admissions use up the five
    tokens, the sixth call is refused. *)
Example token_burst_run :
  fst (TokenBucket.run token_5_1 token_burst) =
    [true; true; true; true; true; false].
Proof. vm_compute. reflexivity. Qed.

(** C1. The tokens of a key can go below zero, against the claimed range
    [[0, capacity]]: on a key's first call the factory stamps [last_refill]
    with a clock reading taken after the call's own [now], so the first
    refill adds a negative amount.  With [capacity=1], [refill_rate=1000],
    [now=0] and the factory reading 0.002 the refill leaves
    [min(1, 1 + (0 - 0.002)*1000) = -1] tokens, and the call is rejected.
    ([token_bucket_le_capacity] and [token_bucket_nonneg] give the parts of
    the range that do hold.) *)
Theorem token_bucket_first_refill_negative :
  TokenBucket.init 1 1000 = ok token_1_1000 /\
  (0 < TokenBucket.capacity token_1_1000)%Q /\
  (0 < TokenBucket.refill_rate token_1_1000)%Q /\
  (0 <= 1 # 500)%Q /\
  let r := TokenBucket.is_allowed token_1_1000 0 (1 # 500) "user2"%string 1 in
  fst r = false /\
  exists b,
    TokenBucket.buckets (snd r) !! "user2"%string = Some b /\
    (TokenBucket.tokens b == -1)%Q /\
    (TokenBucket.tokens b < 0)%Q.
Proof.
  split; [reflexivity|]. split; [reflexivity|]. split; [reflexivity|].
  split; [discriminate|]. cbn zeta.
  split; [vm_compute; reflexivity|].
  eexists. split; [vm_compute; reflexivity|]. split; reflexivity.
Qed.

(** On a missing key the first call with cost 1 is admitted exactly when a
    whole token is left after the first refill. *)
Lemma token_bucket_first_call (self : TokenBucket.t) (now created : Q)
    (key : string) :
  TokenBucket.buckets self !! key = None ->
  fst (TokenBucket.is_allowed self now created key 1) = true <->
  (1 <= TokenBucket.capacity self)%Q /\
  (1 <= TokenBucket.capacity self +
        (now - created) * TokenBucket.refill_rate self)%Q.
Proof.
  intros Hkey. rewrite token_is_allowed_lookup, Hkey. cbn.
  rewrite geb_ge. change (inject_Z 1) with 1%Q. unfold py_min.
  destruct (ltb _ _) eqn:E.
  - apply ltb_lt in E. split; [intros H; split; lra|intros [_ H]; exact H].
  - apply ltb_ge in E. split; [intros H; split; lra|intros [H _]; exact H].
Qed.

(** C7. The first call for a never-seen key is not always admitted by the
    token bucket: with [capacity=1] and [refill_rate=1], when the clock
    reads 100 in [is_allowed] and 100.000001 in the factory that creates the
    bucket, the refill leaves 0.999999 tokens and the call with the default
    cost 1 returns [false].  (The next section shows the other four
    strategies let it through, and the token bucket does when the clock stands
    still during the call.) *)
Theorem token_bucket_first_call_rejected :
  TokenBucket.init 1 1 = ok token_1_1 /\
  (1 <= TokenBucket.capacity token_1_1)%Q /\
  TokenBucket.buckets token_1_1 !! "user2"%string = None /\
  (100 <= 100000001 # 1000000)%Q /\
  let r :=
    TokenBucket.is_allowed token_1_1 100 (100000001 # 1000000)
      "user2"%string 1 in
  fst r = false /\
  exists b,
    TokenBucket.buckets (snd r) !! "user2"%string = Some b /\
    (TokenBucket.tokens b == 999999 # 1000000)%Q.
Proof.
  split; [reflexivity|]. split; [discriminate|]. split; [reflexivity|].
  split; [discriminate|]. cbn zeta. split; [vm_compute; reflexivity|].
  eexists. split; [vm_compute; reflexivity|]. reflexivity.
Qed.

(** ** Unknown keys *)

Lemma fixed_window_first_call (self : FixedWindow.t) (now : Q) (key : string) :
  1 <= FixedWindow.limit self ->
  ~ (FixedWindow.window_size self == 0)%Q ->
  FixedWindow.counters self !! key = None ->
  exists self', FixedWindow.is_allowed self now key = ok (true, self').
Proof.
  intros Hlim Hws Hkey. unfold FixedWindow.is_allowed.
  rewrite floordiv_ok by exact Hws. rewrite bind_ok.
  rewrite (getitem_missing _ _ _ Hkey).
  destruct (negb _); cbn;
    (destruct (Z.ltb_spec 0 (FixedWindow.limit self)); [|lia]);
    eexists; reflexivity.
Qed.

Lemma sliding_log_first_call (self : SlidingWindowLog.t) (now : Q) (key : string) :
  1 <= SlidingWindowLog.limit self ->
  SlidingWindowLog.logs self !! key = None ->
  fst (SlidingWindowLog.is_allowed self now key) = true.
Proof.
  intros Hlim Hkey. unfold SlidingWindowLog.is_allowed.
  rewrite (getitem_missing _ _ _ Hkey). cbn. change (Z.of_nat 0) with 0.
  destruct (Z.ltb_spec 0 (SlidingWindowLog.limit self)); [reflexivity|lia].
Qed.

Lemma sliding_counter_first_call (self : SlidingWindowCounter.t) (now : Q)
    (key : string) :
  1 <= SlidingWindowCounter.limit self ->
  ~ (SlidingWindowCounter.window_size self == 0)%Q ->
  SlidingWindowCounter.windows self !! key = None ->
  exists self', SlidingWindowCounter.is_allowed self now key = ok (true, self').
Proof.
  intros Hlim Hws Hkey. unfold SlidingWindowCounter.is_allowed.
  rewrite floordiv_ok by exact Hws. rewrite bind_ok.
  rewrite (getitem_missing _ _ _ Hkey).
  unfold SlidingWindowCounter.weigh. rewrite truediv_ok by exact Hws.
  rewrite bind_ok.
  set (wd := SlidingWindowCounter.slide _ _).
  assert (Hwd : SlidingWindowCounter.previous wd = 0 /\
                SlidingWindowCounter.current wd = 0).
  { unfold wd, SlidingWindowCounter.slide. cbn.
    destruct (negb _); cbn; [|auto].
    match goal with |- context [if ?c then _ else _] => destruct c end; auto. }
  cbv beta. destruct Hwd as [Hp Hc]. rewrite Hp, Hc, bind_ok.
  match goal with |- context [ltb ?a ?b] =>
    assert (Hlt : ltb a b = true) end.
  { apply ltb_lt. change (inject_Z 0) with 0%Q.
    assert (Hl : (1 <= inject_Z (SlidingWindowCounter.limit self))%Q).
    { change 1%Q with (inject_Z 1). rewrite <- Zle_Qle. exact Hlim. }
    lra. }
  rewrite Hlt. eexists; reflexivity.
Qed.

Lemma token_bucket_first_call_still_clock (self : TokenBucket.t) (now : Q)
    (key : string) :
  (1 <= TokenBucket.capacity self)%Q ->
  TokenBucket.buckets self !! key = None ->
  fst (TokenBucket.is_allowed self now now key 1) = true.
Proof.
  intros Hcap Hkey. apply (token_bucket_first_call _ _ _ _ Hkey).
  split; [exact Hcap|]. lra.
Qed.

Lemma leaky_bucket_first_call (self : LeakyBucket.t) (now created : Q)
    (key : string) :
  1 <= LeakyBucket.capacity self ->
  LeakyBucket.buckets self !! key = None ->
  fst (LeakyBucket.is_allowed self now created key) = true.
Proof.
  intros Hcap Hkey. unfold LeakyBucket.is_allowed.
  rewrite (getitem_missing _ _ _ Hkey). cbn -[Z.min Z.to_nat py_int].
  unfold LeakyBucket.leak. rewrite drop_nil. cbn. change (Z.of_nat 0) with 0.
  destruct (Z.ltb_spec 0 (LeakyBucket.capacity self)); [reflexivity|lia].
Qed.

(** ** Leaky bucket *)

(** What [is_allowed] does to the queue of its key: drop [n] entries from
    the front, then append [now] iff the call is admitted. *)
Lemma leaky_is_allowed_lookup (self : LeakyBucket.t) (now created : Q)
    (key : string) :
  let b := default (LeakyBucket.default created)
             (LeakyBucket.buckets self !! key) in
  let n :=
    Z.min (py_int ((now - LeakyBucket.last_leak b) * LeakyBucket.leak_rate self))
          (Z.of_nat (length (LeakyBucket.queue b))) in
  let rest := LeakyBucket.leak n (LeakyBucket.queue b) in
  let allowed := Z.of_nat (length rest) <? LeakyBucket.capacity self in
  LeakyBucket.is_allowed self now created key =
    (allowed,
     LeakyBucket.set_buckets self
       (<[key := {| LeakyBucket.queue := rest ++ (if allowed then [now] else []);
                    LeakyBucket.last_leak := now |}]>
          (LeakyBucket.buckets self))).
Proof.
  intros b n rest allowed. unfold LeakyBucket.is_allowed.
  assert (Hfst : (getitem (LeakyBucket.default created)
                    (LeakyBucket.buckets self) key).1 = b).
  { unfold getitem, b. destruct (LeakyBucket.buckets self !! key); reflexivity. }
  pose proof (fun v => getitem_insert (LeakyBucket.default created) v
                         (LeakyBucket.buckets self) key) as Hins.
  destruct (getitem _ _ key) as [b' buckets']. cbn [fst snd] in Hfst, Hins.
  subst b'. fold n. fold rest. fold allowed.
  destruct allowed; rewrite Hins; [reflexivity|].
  rewrite app_nil_r. reflexivity.
Qed.

Lemma leaky_queue_of_step (self : LeakyBucket.t) (now created : Q)
    (key : string) :
  let r := LeakyBucket.is_allowed self now created key in
  LeakyBucket.capacity (snd r) = LeakyBucket.capacity self /\
  LeakyBucket.leak_rate (snd r) = LeakyBucket.leak_rate self /\
  (exists leaked rest,
     LeakyBucket.queue_of self key = leaked ++ rest /\
     LeakyBucket.queue_of (snd r) key = rest ++ (if fst r then [now] else []) /\
     fst r = (Z.of_nat (length rest) <? LeakyBucket.capacity self)) /\
  (forall k, k <> key ->
     LeakyBucket.queue_of (snd r) k = LeakyBucket.queue_of self k).
Proof.
  rewrite leaky_is_allowed_lookup. cbn [fst snd].
  split; [reflexivity|]. split; [reflexivity|]. split.
  - set (b := default _ _). set (n := Z.min _ _).
    exists (take (Z.to_nat n) (LeakyBucket.queue b)),
           (LeakyBucket.leak n (LeakyBucket.queue b)).
    split; [|split; [|reflexivity]].
    + unfold LeakyBucket.leak. rewrite take_drop.
      unfold LeakyBucket.queue_of, b.
      destruct (LeakyBucket.buckets self !! key); reflexivity.
    + unfold LeakyBucket.queue_of at 1. cbn. rewrite lookup_insert_eq.
      reflexivity.
  - intros k Hne. unfold LeakyBucket.queue_of. cbn.
    rewrite lookup_insert_ne by congruence. reflexivity.
Qed.

Lemma leaky_bucket_step_bound (self : LeakyBucket.t) (now created : Q)
    (key : string) :
  (forall k, Z.of_nat (length (LeakyBucket.queue_of self k)) <=
             LeakyBucket.capacity self) ->
  forall k,
    Z.of_nat (length (LeakyBucket.queue_of
                        (snd (LeakyBucket.is_allowed self now created key)) k)) <=
    LeakyBucket.capacity self.
Proof.
  intros Hinv k.
  destruct (leaky_queue_of_step self now created key)
    as (_ & _ & (leaked & rest & Hold & Hnew & Hadmit) & Hother).
  destruct (decide (k = key)) as [->|Hne].
  - rewrite Hnew. specialize (Hinv key). rewrite Hold in Hinv.
    rewrite !length_app in *. rewrite Hadmit.
    destruct (Z.ltb_spec (Z.of_nat (length rest)) (LeakyBucket.capacity self));
      cbn [length]; lia.
  - rewrite (Hother k Hne). apply Hinv.
Qed.

Lemma leaky_bucket_run_bound (calls : list LeakyBucket.call) :
  forall self,
    (forall k, Z.of_nat (length (LeakyBucket.queue_of self k)) <=
               LeakyBucket.capacity self) ->
    LeakyBucket.capacity (snd (LeakyBucket.run self calls)) =
      LeakyBucket.capacity self /\
    forall k,
      Z.of_nat (length (LeakyBucket.queue_of
                          (snd (LeakyBucket.run self calls)) k)) <=
      LeakyBucket.capacity self.
Proof.
  induction calls as [|c calls IH]; intros self Hinv; cbn.
  - split; [reflexivity|exact Hinv].
  - pose proof (leaky_bucket_step_bound self (LeakyBucket.now c)
                  (LeakyBucket.created c) (LeakyBucket.key c) Hinv) as Hstep.
    destruct (leaky_queue_of_step self (LeakyBucket.now c)
                (LeakyBucket.created c) (LeakyBucket.key c)) as (Hcap & _).
    cbn zeta in Hcap. rewrite <- Hcap in Hstep.
    destruct (IH _ Hstep) as [Hcap' Hbound]. rewrite Hcap in Hcap', Hbound.
    split; assumption.
Qed.

(** C2. A leaky bucket built with positive [capacity] and [leak_rate] never
    holds more than [capacity] entries for any key, after any sequence of
    [is_allowed] calls; and a call only ever removes entries from the front
    of the key's queue (the oldest first) and appends [now] at its back
    when it admits, leaving the queues of other keys alone. *)
Theorem leaky_bucket_queue_bound_fifo
    (capacity : Z) (leak_rate : Q) (calls : list LeakyBucket.call) :
  0 < capacity -> (0 < leak_rate)%Q ->
  forall self0, LeakyBucket.init capacity leak_rate = ok self0 ->
  let self := snd (LeakyBucket.run self0 calls) in
  (forall key,
     Z.of_nat (length (LeakyBucket.queue_of self key)) <= capacity) /\
  (forall now created key,
     let r := LeakyBucket.is_allowed self now created key in
     (exists leaked rest,
        LeakyBucket.queue_of self key = leaked ++ rest /\
        LeakyBucket.queue_of (snd r) key =
          rest ++ (if fst r then [now] else [])) /\
     (forall k, k <> key ->
        LeakyBucket.queue_of (snd r) k = LeakyBucket.queue_of self k)).
Proof.
  intros Hcap Hrate self0 [= <-] self. split.
  - assert (Hinit : forall k,
      Z.of_nat (length (LeakyBucket.queue_of
        {| LeakyBucket.capacity := capacity; LeakyBucket.leak_rate := leak_rate;
           LeakyBucket.buckets := ∅ |} k)) <= capacity).
    { intros k. unfold LeakyBucket.queue_of. cbn. rewrite lookup_empty.
      cbn. lia. }
    intros key. apply (leaky_bucket_run_bound calls _ Hinit).
  - intros now created key r.
    destruct (leaky_queue_of_step self now created key)
      as (_ & _ & (leaked & rest & Hold & Hnew & _) & Hother).
    split; [exists leaked, rest; split; assumption|exact Hother].
Qed.

Lemma leaky_bucket_queue_bound_fifo_witness :
  0 < 2 /\ (0 < 1)%Q /\
  Z.of_nat (length (LeakyBucket.queue_of
                      (snd (LeakyBucket.run leaky_2_1 leaky_calls))
                      "user5"%string)) <= 2.
Proof.
  split; [reflexivity|]. split; [reflexivity|].
  destruct (leaky_bucket_queue_bound_fifo 2 1 leaky_calls) with (self0 := leaky_2_1)
    as [Hbound _]; [reflexivity..|].
  apply Hbound.
Defined.

Example leaky_calls_run :
  fst (LeakyBucket.run leaky_2_1 leaky_calls) = [true; true; false; true] /\
  LeakyBucket.queue_of (snd (LeakyBucket.run leaky_2_1 leaky_calls))
    "user5"%string = [0; 3 # 2]%Q.
Proof. split; vm_compute; reflexivity. Qed.

(** ** Construction *)

(** C9, as the code has it.  No constructor validates its parameters: for
    any limit or capacity and any window size or rate, zero and negative
    values included, construction raises nothing and returns a limiter that
    holds the given parameters and an empty key mapping. *)
Theorem init_accepts_any_parameters :
  (forall limit window_size,
     FixedWindow.init limit window_size =
       ok {| FixedWindow.limit := limit;
             FixedWindow.window_size := window_size;
             FixedWindow.counters := ∅ |}) /\
  (forall limit window_size,
     SlidingWindowLog.init limit window_size =
       ok {| SlidingWindowLog.limit := limit;
             SlidingWindowLog.window_size := window_size;
             SlidingWindowLog.logs := ∅ |}) /\
  (forall limit window_size,
     SlidingWindowCounter.init limit window_size =
       ok {| SlidingWindowCounter.limit := limit;
             SlidingWindowCounter.window_size := window_size;
             SlidingWindowCounter.windows := ∅ |}) /\
  (forall capacity refill_rate,
     TokenBucket.init capacity refill_rate =
       ok {| TokenBucket.capacity := capacity;
             TokenBucket.refill_rate := refill_rate;
             TokenBucket.buckets := ∅ |}) /\
  (forall capacity leak_rate,
     LeakyBucket.init capacity leak_rate =
       ok {| LeakyBucket.capacity := capacity;
             LeakyBucket.leak_rate := leak_rate;
             LeakyBucket.buckets := ∅ |}).
Proof. repeat split. Qed.

(** C9 as claimed fails: non-positive parameters are accepted. *)
Lemma init_nonpositive_not_rejected :
  (exists self,
     FixedWindow.init 0 (-10) = ok self /\
     FixedWindow.limit self = 0 /\
     (FixedWindow.window_size self < 0)%Q) /\
  (exists self,
     TokenBucket.init (-1) 0 = ok self /\
     (TokenBucket.capacity self < 0)%Q /\
     (TokenBucket.refill_rate self <= 0)%Q).
Proof.
  split; eexists; (split; [reflexivity|]); split; cbn; easy.
Qed.

(** Where a bad window size does surface: the first [is_allowed], which
    divides by it, before touching the mapping. *)
Lemma zero_window_raises (limit : Z) (now : Q) (key : string) :
  (forall self, FixedWindow.init limit 0 = ok self ->
     FixedWindow.is_allowed self now key = raise ZeroDivisionError) /\
  (forall self, SlidingWindowCounter.init limit 0 = ok self ->
     SlidingWindowCounter.is_allowed self now key = raise ZeroDivisionError).
Proof. split; intros self [= <-]; reflexivity. Qed.

(** ** Statistics *)

Lemma fixed_set_counters_id (self : FixedWindow.t) :
  FixedWindow.set_counters self (FixedWindow.counters self) = self.
Proof. destruct self; reflexivity. Qed.

Lemma log_set_logs_id (self : SlidingWindowLog.t) :
  SlidingWindowLog.set_logs self (SlidingWindowLog.logs self) = self.
Proof. destruct self; reflexivity. Qed.

Lemma counter_set_windows_id (self : SlidingWindowCounter.t) :
  SlidingWindowCounter.set_windows self (SlidingWindowCounter.windows self) = self.
Proof. destruct self; reflexivity. Qed.

Lemma token_set_buckets_id (self : TokenBucket.t) :
  TokenBucket.set_buckets self (TokenBucket.buckets self) = self.
Proof. destruct self; reflexivity. Qed.

Lemma leaky_set_buckets_id (self : LeakyBucket.t) :
  LeakyBucket.set_buckets self (LeakyBucket.buckets self) = self.
Proof. destruct self; reflexivity. Qed.

(** What one [d[key]] does to the mapping, and that a second one finds what
    the first left. *)
Lemma getitem_frame {V : Type} (dflt : V) (d : gmap string V) (key : string) :
  (forall v, d !! key = Some v -> (getitem dflt d key).2 = d) /\
  (d !! key = None -> (getitem dflt d key).2 = <[key := dflt]> d) /\
  (forall k, k <> key -> (getitem dflt d key).2 !! k = d !! k).
Proof.
  unfold getitem. destruct (d !! key) eqn:E; cbn.
  - repeat split; congruence.
  - repeat split; try congruence.
    intros k Hne. rewrite lookup_insert_ne by congruence. reflexivity.
Qed.

Lemma fixed_get_stats_frame (self : FixedWindow.t) (key : string) :
  let r := FixedWindow.get_stats self key in
  (forall v, FixedWindow.counters self !! key = Some v -> snd r = self) /\
  (FixedWindow.counters self !! key = None ->
   snd r = FixedWindow.set_counters self
             (<[key := FixedWindow.default]> (FixedWindow.counters self))) /\
  (forall k, k <> key ->
     FixedWindow.counters (snd r) !! k = FixedWindow.counters self !! k) /\
  FixedWindow.get_stats (snd r) key = r.
Proof.
  unfold FixedWindow.get_stats.
  pose proof (getitem_frame FixedWindow.default (FixedWindow.counters self) key)
    as (Hsome & Hnone & Hother).
  pose proof (getitem_again FixedWindow.default FixedWindow.default
                (FixedWindow.counters self) key) as Hagain.
  destruct (getitem _ _ key) as [v d] eqn:E. cbn [fst snd] in *.
  repeat split.
  - intros v' Hv. rewrite (Hsome v' Hv). apply fixed_set_counters_id.
  - intros Hk. rewrite (Hnone Hk). reflexivity.
  - exact Hother.
  - cbn. rewrite Hagain. reflexivity.
Qed.

Lemma log_get_stats_frame (self : SlidingWindowLog.t) (now : Q) (key : string) :
  let r := SlidingWindowLog.get_stats self now key in
  (forall v, SlidingWindowLog.logs self !! key = Some v -> snd r = self) /\
  (SlidingWindowLog.logs self !! key = None ->
   snd r = SlidingWindowLog.set_logs self
             (<[key := []]> (SlidingWindowLog.logs self))) /\
  (forall k, k <> key ->
     SlidingWindowLog.logs (snd r) !! k = SlidingWindowLog.logs self !! k) /\
  SlidingWindowLog.get_stats (snd r) now key = r.
Proof.
  unfold SlidingWindowLog.get_stats.
  pose proof (getitem_frame [] (SlidingWindowLog.logs self) key)
    as (Hsome & Hnone & Hother).
  pose proof (getitem_again (V := list Q) [] []
                (SlidingWindowLog.logs self) key) as Hagain.
  destruct (getitem _ _ key) as [v d] eqn:E. cbn [fst snd] in *.
  repeat split.
  - intros v' Hv. rewrite (Hsome v' Hv). apply log_set_logs_id.
  - intros Hk. rewrite (Hnone Hk). reflexivity.
  - exact Hother.
  - cbn. rewrite Hagain. reflexivity.
Qed.

Lemma counter_get_stats_frame (self : SlidingWindowCounter.t) (now : Q)
    (key : string) (r : SlidingWindowCounter.stats * SlidingWindowCounter.t) :
  SlidingWindowCounter.get_stats self now key = ok r ->
  (forall v, SlidingWindowCounter.windows self !! key = Some v -> snd r = self) /\
  (SlidingWindowCounter.windows self !! key = None ->
   snd r = SlidingWindowCounter.set_windows self
             (<[key := SlidingWindowCounter.default]>
                (SlidingWindowCounter.windows self))) /\
  (forall k, k <> key ->
     SlidingWindowCounter.windows (snd r) !! k =
     SlidingWindowCounter.windows self !! k) /\
  SlidingWindowCounter.get_stats (snd r) now key = ok r.
Proof.
  unfold SlidingWindowCounter.get_stats.
  destruct (floordiv now (SlidingWindowCounter.window_size self))
    as [e|cw] eqn:Ecw; [discriminate|]. rewrite !bind_ok.
  pose proof (getitem_frame SlidingWindowCounter.default
                (SlidingWindowCounter.windows self) key)
    as (Hsome & Hnone & Hother).
  pose proof (getitem_again SlidingWindowCounter.default
                SlidingWindowCounter.default
                (SlidingWindowCounter.windows self) key) as Hagain.
  destruct (getitem _ _ key) as [v d] eqn:E. cbn [fst snd] in *.
  destruct (SlidingWindowCounter.weigh self now cw v) as [e|wc] eqn:Ew;
    [discriminate|].
  rewrite bind_ok. intros [= <-]. cbn [fst snd].
  repeat split.
  - intros v' Hv. rewrite (Hsome v' Hv). apply counter_set_windows_id.
  - intros Hk. rewrite (Hnone Hk). reflexivity.
  - exact Hother.
  - cbn [SlidingWindowCounter.window_size SlidingWindowCounter.windows
         SlidingWindowCounter.set_windows].
    rewrite Ecw, bind_ok, Hagain.
    change (SlidingWindowCounter.weigh _ now cw v)
      with (SlidingWindowCounter.weigh self now cw v).
    rewrite Ew, bind_ok. reflexivity.
Qed.

Lemma token_get_stats_frame (self : TokenBucket.t) (created created' : Q)
    (key : string) :
  let r := TokenBucket.get_stats self created key in
  (forall v, TokenBucket.buckets self !! key = Some v -> snd r = self) /\
  (TokenBucket.buckets self !! key = None ->
   snd r = TokenBucket.set_buckets self
             (<[key := TokenBucket.default self created]>
                (TokenBucket.buckets self))) /\
  (forall k, k <> key ->
     TokenBucket.buckets (snd r) !! k = TokenBucket.buckets self !! k) /\
  TokenBucket.get_stats (snd r) created' key = r.
Proof.
  unfold TokenBucket.get_stats.
  pose proof (getitem_frame (TokenBucket.default self created)
                (TokenBucket.buckets self) key) as (Hsome & Hnone & Hother).
  pose proof (fun dflt' => getitem_again (TokenBucket.default self created)
                dflt' (TokenBucket.buckets self) key) as Hagain.
  destruct (getitem _ _ key) as [v d] eqn:E. cbn [fst snd] in *.
  repeat split.
  - intros v' Hv. rewrite (Hsome v' Hv). apply token_set_buckets_id.
  - intros Hk. rewrite (Hnone Hk). reflexivity.
  - exact Hother.
  - cbn. rewrite Hagain. reflexivity.
Qed.

Lemma leaky_get_stats_frame (self : LeakyBucket.t) (created created' : Q)
    (key : string) :
  let r := LeakyBucket.get_stats self created key in
  (forall v, LeakyBucket.buckets self !! key = Some v -> snd r = self) /\
  (LeakyBucket.buckets self !! key = None ->
   snd r = LeakyBucket.set_buckets self
             (<[key := LeakyBucket.default created]>
                (LeakyBucket.buckets self))) /\
  (forall k, k <> key ->
     LeakyBucket.buckets (snd r) !! k = LeakyBucket.buckets self !! k) /\
  LeakyBucket.get_stats (snd r) created' key = r.
Proof.
  unfold LeakyBucket.get_stats.
  pose proof (getitem_frame (LeakyBucket.default created)
                (LeakyBucket.buckets self) key) as (Hsome & Hnone & Hother).
  pose proof (fun dflt' => getitem_again (LeakyBucket.default created)
                dflt' (LeakyBucket.buckets self) key) as Hagain.
  destruct (getitem _ _ key) as [v d] eqn:E. cbn [fst snd] in *.
  repeat split.
  - intros v' Hv. rewrite (Hsome v' Hv). apply leaky_set_buckets_id.
  - intros Hk. rewrite (Hnone Hk). reflexivity.
  - exact Hother.
  - cbn. rewrite Hagain. reflexivity.
Qed.

(** C8, as the code has it.  For each of the five strategies, [get_stats]
    leaves the limiter exactly as it was when the key is already in the
    mapping; for a never-seen key it inserts the key with the strategy's
    baseline record (for the two buckets stamped with the current clock
    reading) and changes nothing else, no other key's record in
    particular; and a second [get_stats] for the same key, with no
    [is_allowed] in between and the same clock reading, returns the same
    snapshot and the same limiter. *)
Theorem get_stats_frame :
  (forall self key,
     let r := FixedWindow.get_stats self key in
     (forall v, FixedWindow.counters self !! key = Some v -> snd r = self) /\
     (FixedWindow.counters self !! key = None ->
      snd r = FixedWindow.set_counters self
                (<[key := FixedWindow.default]> (FixedWindow.counters self))) /\
     (forall k, k <> key ->
        FixedWindow.counters (snd r) !! k = FixedWindow.counters self !! k) /\
     FixedWindow.get_stats (snd r) key = r) /\
  (forall self now key,
     let r := SlidingWindowLog.get_stats self now key in
     (forall v, SlidingWindowLog.logs self !! key = Some v -> snd r = self) /\
     (SlidingWindowLog.logs self !! key = None ->
      snd r = SlidingWindowLog.set_logs self
                (<[key := []]> (SlidingWindowLog.logs self))) /\
     (forall k, k <> key ->
        SlidingWindowLog.logs (snd r) !! k = SlidingWindowLog.logs self !! k) /\
     SlidingWindowLog.get_stats (snd r) now key = r) /\
  (forall self now key r,
     SlidingWindowCounter.get_stats self now key = ok r ->
     (forall v, SlidingWindowCounter.windows self !! key = Some v ->
                snd r = self) /\
     (SlidingWindowCounter.windows self !! key = None ->
      snd r = SlidingWindowCounter.set_windows self
                (<[key := SlidingWindowCounter.default]>
                   (SlidingWindowCounter.windows self))) /\
     (forall k, k <> key ->
        SlidingWindowCounter.windows (snd r) !! k =
        SlidingWindowCounter.windows self !! k) /\
     SlidingWindowCounter.get_stats (snd r) now key = ok r) /\
  (forall self created created' key,
     let r := TokenBucket.get_stats self created key in
     (forall v, TokenBucket.buckets self !! key = Some v -> snd r = self) /\
     (TokenBucket.buckets self !! key = None ->
      snd r = TokenBucket.set_buckets self
                (<[key := TokenBucket.default self created]>
                   (TokenBucket.buckets self))) /\
     (forall k, k <> key ->
        TokenBucket.buckets (snd r) !! k = TokenBucket.buckets self !! k) /\
     TokenBucket.get_stats (snd r) created' key = r) /\
  (forall self created created' key,
     let r := LeakyBucket.get_stats self created key in
     (forall v, LeakyBucket.buckets self !! key = Some v -> snd r = self) /\
     (LeakyBucket.buckets self !! key = None ->
      snd r = LeakyBucket.set_buckets self
                (<[key := LeakyBucket.default created]>
                   (LeakyBucket.buckets self))) /\
     (forall k, k <> key ->
        LeakyBucket.buckets (snd r) !! k = LeakyBucket.buckets self !! k) /\
     LeakyBucket.get_stats (snd r) created' key = r).
Proof.
  split; [exact fixed_get_stats_frame|].
  split; [exact log_get_stats_frame|].
  split; [exact counter_get_stats_frame|].
  split; [intros self c c' key; exact (token_get_stats_frame self c c' key)|].
  intros self c c' key; exact (leaky_get_stats_frame self c c' key).
Qed.

Lemma get_stats_frame_witness :
  FixedWindow.counters fixed_5_10_full !! "user1"%string =
    Some {| FixedWindow.count := 5; FixedWindow.window_start := 0 |} /\
  snd (FixedWindow.get_stats fixed_5_10_full "user1"%string) = fixed_5_10_full /\
  "user9"%string <> "user1"%string /\
  FixedWindow.counters
    (snd (FixedWindow.get_stats fixed_5_10_full "user1"%string))
    !! "user9"%string = FixedWindow.counters fixed_5_10_full !! "user9"%string.
Proof.
  destruct get_stats_frame as (Hfixed & _).
  destruct (Hfixed fixed_5_10_full "user1"%string) as (Hsame & _ & Hother & _).
  split; [reflexivity|]. split; [eapply Hsame; reflexivity|].
  split; [discriminate|]. apply Hother. discriminate.
Defined.

(** C8 as claimed fails: [get_stats] for a never-seen key changes the
    key-to-state mapping, which gains that key; for the token bucket the new
    record carries the clock reading of the [get_stats] call. *)
Lemma get_stats_inserts_unknown_key :
  snd (FixedWindow.get_stats fixed_5_10 "user1"%string) <> fixed_5_10 /\
  FixedWindow.counters fixed_5_10 !! "user1"%string = None /\
  FixedWindow.counters (snd (FixedWindow.get_stats fixed_5_10 "user1"%string))
    !! "user1"%string = Some FixedWindow.default /\
  snd (TokenBucket.get_stats token_5_1 7 "user2"%string) <> token_5_1 /\
  TokenBucket.buckets (snd (TokenBucket.get_stats token_5_1 7 "user2"%string))
    !! "user2"%string =
    Some {| TokenBucket.tokens := 5; TokenBucket.last_refill := 7 |}.
Proof.
  split.
  { intros H.
    apply (f_equal (fun l => FixedWindow.counters l !! "user1"%string)) in H.
    vm_compute in H. discriminate. }
  split; [reflexivity|]. split; [reflexivity|]. split; [|reflexivity].
  intros H.
  apply (f_equal (fun l => TokenBucket.buckets l !! "user2"%string)) in H.
  vm_compute in H. discriminate.
Qed.

(** * Further properties

    The model computes with exact rationals where the code computes with
    doubles.  The statements of this part are about counts, orders and
    signs, which rounding does not change, or are stated away from the ties
    of a rounded product: the token bucket's first refill is taken with the
    clock standing still, the leaky bucket's polls are at most half a leak
    interval apart, the sliding window counter is read at the exact start of
    a window. *)

(** ** Fixed window: counting *)

(** One [is_allowed], written on the stored record. *)
Lemma fixed_is_allowed_lookup (self : FixedWindow.t) (now : Q) (key : string)
    (w : Z) :
  floordiv now (FixedWindow.window_size self) = ok w ->
  let c := fixed_effective_count self key w in
  FixedWindow.is_allowed self now key =
    ok (c <? FixedWindow.limit self,
        FixedWindow.set_counters self
          (<[key := {| FixedWindow.count :=
                         if c <? FixedWindow.limit self then c + 1 else c;
                       FixedWindow.window_start := w |}]>
             (FixedWindow.counters self))).
Proof.
  intros Hw c. unfold FixedWindow.is_allowed. rewrite Hw, bind_ok.
  pose proof (fun v => getitem_insert FixedWindow.default v
                         (FixedWindow.counters self) key) as Hins.
  assert (Hfst : (getitem FixedWindow.default (FixedWindow.counters self) key).1
                 = default FixedWindow.default (FixedWindow.counters self !! key)).
  { unfold getitem. destruct (FixedWindow.counters self !! key); reflexivity. }
  destruct (getitem _ _ key) as [r d]. cbn [fst snd] in Hins, Hfst. subst r.
  unfold c, fixed_effective_count.
  destruct (FixedWindow.counters self !! key) as [[n ws]|];
    cbn -[Z.ltb Z.eqb Z.add insert].
  - destruct (Z.eqb_spec ws w) as [->|Hne]; cbn -[Z.ltb Z.eqb Z.add insert];
      destruct (_ <? FixedWindow.limit self); rewrite Hins; reflexivity.
  - destruct (Z.eqb_spec 0 w) as [<-|Hne]; cbn -[Z.ltb Z.eqb Z.add insert];
      destruct (0 <? FixedWindow.limit self); rewrite Hins; reflexivity.
Qed.

Lemma count_true_repeat (k m : nat) :
  count_true (repeat true k ++ repeat false m) = Z.of_nat k.
Proof.
  induction k as [|k IH].
  - induction m as [|m IHm]; [reflexivity|exact IHm].
  - cbn [repeat app count_true]. rewrite IH. lia.
Qed.

(** In one window a key gets exactly what is left of its limit, first come
    first served: of [n] calls for the key that all read the clock in window
    [w], the first [min n (limit - c)] are let through and the rest refused,
    where [c] is the count the key starts the window with; the calls never
    raise, and the key's count ends at [c] plus the number let through. *)
Theorem fixed_window_budget (self : FixedWindow.t) (key : string) (w : Z)
    (calls : list (Q * string)) :
  fixed_calls_in_window self key w calls ->
  let c := fixed_effective_count self key w in
  let k := Nat.min (length calls) (Z.to_nat (FixedWindow.limit self - c)) in
  exists self',
    FixedWindow.run self calls =
      ok (repeat true k ++ repeat false (length calls - k), self') /\
    count_true (repeat true k ++ repeat false (length calls - k)) <=
      Z.max 0 (FixedWindow.limit self - c) /\
    fixed_effective_count self' key w = c + Z.of_nat k /\
    FixedWindow.limit self' = FixedWindow.limit self.
Proof.
  revert self. induction calls as [|[now key'] calls IH]; intros self Hin c k.
  - exists self. cbn. repeat split; [lia|unfold c; lia].
  - apply Forall_cons in Hin as [[Hkey Hw] Hin]. cbn [fst snd] in Hkey, Hw.
    subst key'. cbn [FixedWindow.run].
    rewrite (fixed_is_allowed_lookup self now key w Hw), bind_ok.
    fold c. cbn [fst snd].
    set (self1 := FixedWindow.set_counters self _).
    assert (Hc1 : fixed_effective_count self1 key w =
                  if c <? FixedWindow.limit self then c + 1 else c).
    { unfold fixed_effective_count, self1. cbn. rewrite lookup_insert_eq. cbn.
      rewrite Z.eqb_refl. reflexivity. }
    destruct (IH self1 Hin) as (self' & Hrun & _ & Hcount & Hlim).
    rewrite Hrun, bind_ok. cbn [fst snd]. rewrite Hc1 in Hcount |- *.
    change (FixedWindow.limit self1) with (FixedWindow.limit self) in *.
    exists self'. rewrite count_true_repeat. unfold k. cbn [length].
    destruct (Z.ltb_spec c (FixedWindow.limit self)) as [Hlt|Hge].
    + replace (Z.to_nat (FixedWindow.limit self - c))
        with (S (Z.to_nat (FixedWindow.limit self - (c + 1)))) by lia.
      cbn [Nat.min Nat.sub repeat app].
      split; [reflexivity|]. split; [lia|]. split; [lia|exact Hlim].
    + assert (Hz : Z.to_nat (FixedWindow.limit self - c) = 0%nat) by lia.
      rewrite Hz in Hcount |- *. rewrite !Nat.min_0_r in Hcount |- *.
      rewrite Nat.sub_0_r. cbn [repeat app Nat.sub].
      split; [reflexivity|]. split; [lia|]. split; [lia|exact Hlim].
Qed.

Lemma fixed_window_budget_witness :
  exists self',
    FixedWindow.run fixed_5_10 fixed_seven_calls =
      ok ([true; true; true; true; true; false; false], self').
Proof.
  destruct (fixed_window_budget fixed_5_10 "user1"%string 0 fixed_seven_calls)
    as (self' & Hrun & _).
  - repeat constructor.
  - exists self'. exact Hrun.
Defined.

Lemma fixed_step_bounds (self : FixedWindow.t) (now : Q) (key : string) :
  ~ (FixedWindow.window_size self == 0)%Q ->
  0 <= FixedWindow.limit self ->
  (forall k r, FixedWindow.counters self !! k = Some r ->
               0 <= FixedWindow.count r <= FixedWindow.limit self) ->
  exists b self',
    FixedWindow.is_allowed self now key = ok (b, self') /\
    FixedWindow.limit self' = FixedWindow.limit self /\
    FixedWindow.window_size self' = FixedWindow.window_size self /\
    (forall k r, FixedWindow.counters self' !! k = Some r ->
                 0 <= FixedWindow.count r <= FixedWindow.limit self').
Proof.
  intros Hws Hlim Hinv.
  rewrite (fixed_is_allowed_lookup self now key _ (floordiv_ok now _ Hws)).
  cbv zeta. eexists _, _. split; [reflexivity|]. cbn.
  split; [reflexivity|]. split; [reflexivity|].
  set (c := fixed_effective_count self key _).
  assert (Hc : 0 <= c <= FixedWindow.limit self).
  { unfold c, fixed_effective_count.
    destruct (FixedWindow.counters self !! key) as [r|] eqn:E; [|lia].
    destruct (_ =? _); [exact (Hinv key r E)|lia]. }
  intros k r. destruct (decide (key = k)) as [->|Hne].
  - rewrite lookup_insert_eq. intros [= <-]. cbn.
    destruct (Z.ltb_spec c (FixedWindow.limit self)); lia.
  - rewrite lookup_insert_ne by exact Hne. apply Hinv.
Qed.

Lemma fixed_run_bounds (calls : list (Q * string)) :
  forall self : FixedWindow.t,
    ~ (FixedWindow.window_size self == 0)%Q ->
    0 <= FixedWindow.limit self ->
    (forall k r, FixedWindow.counters self !! k = Some r ->
                 0 <= FixedWindow.count r <= FixedWindow.limit self) ->
    exists bs self',
      FixedWindow.run self calls = ok (bs, self') /\
      length bs = length calls /\
      FixedWindow.limit self' = FixedWindow.limit self /\
      (forall k r, FixedWindow.counters self' !! k = Some r ->
                   0 <= FixedWindow.count r <= FixedWindow.limit self').
Proof.
  induction calls as [|[now key] calls IH]; intros self Hws Hlim Hinv.
  - exists [], self. repeat split; apply (Hinv k r H).
  - destruct (fixed_step_bounds self now key Hws Hlim Hinv)
      as (b & self1 & Hstep & Hlim1 & Hws1 & Hinv1).
    destruct (IH self1) as (bs & self' & Hrun & Hlen & Hlim' & Hinv');
      [rewrite Hws1; exact Hws|rewrite Hlim1; exact Hlim|exact Hinv1|].
    exists (b :: bs), self'. cbn [FixedWindow.run].
    rewrite Hstep, bind_ok. cbn [fst snd]. rewrite Hrun, bind_ok. cbn.
    split; [reflexivity|]. split; [congruence|]. split; [congruence|exact Hinv'].
Qed.

(** A fixed window built with a non-negative limit and a non-zero window
    size answers every call of every trace without raising, and never holds
    a count outside [0 .. limit] for any key. *)
Theorem fixed_window_count_bounds (limit : Z) (window_size : Q)
    (calls : list (Q * string)) (self0 : FixedWindow.t) :
  0 <= limit ->
  ~ (window_size == 0)%Q ->
  FixedWindow.init limit window_size = ok self0 ->
  exists bs self,
    FixedWindow.run self0 calls = ok (bs, self) /\
    length bs = length calls /\
    forall key r, FixedWindow.counters self !! key = Some r ->
                  0 <= FixedWindow.count r <= limit.
Proof.
  intros Hlim Hws [= <-].
  destruct (fixed_run_bounds calls
              {| FixedWindow.limit := limit;
                 FixedWindow.window_size := window_size;
                 FixedWindow.counters := ∅ |})
    as (bs & self & Hrun & Hlen & Hlim' & Hinv); cbn; try assumption.
  - intros k r. rewrite lookup_empty. discriminate.
  - exists bs, self. split; [exact Hrun|]. split; [exact Hlen|].
    intros key r Hr. cbn in Hlim'. rewrite <- Hlim'. exact (Hinv key r Hr).
Qed.

Lemma fixed_window_count_bounds_witness :
  exists bs self,
    FixedWindow.run fixed_5_10 double_burst = ok (bs, self) /\
    length bs = length double_burst /\
    forall key r, FixedWindow.counters self !! key = Some r ->
                  0 <= FixedWindow.count r <= 5.
Proof.
  apply (fixed_window_count_bounds 5 10 double_burst fixed_5_10).
  - discriminate.
  - discriminate.
  - reflexivity.
Defined.

(** While the stored record is of the clock's window, the statistics tell
    what the next call will answer: it is let through exactly when
    [remaining] is positive. *)
Theorem fixed_window_stats_predict (self : FixedWindow.t) (now : Q)
    (key : string) (r : FixedWindow.counter_data) :
  FixedWindow.counters self !! key = Some r ->
  floordiv now (FixedWindow.window_size self) =
    ok (FixedWindow.window_start r) ->
  exists self',
    FixedWindow.is_allowed self now key =
      ok (0 <? FixedWindow.remaining (fst (FixedWindow.get_stats self key)),
          self') /\
    FixedWindow.requests_made (fst (FixedWindow.get_stats self' key)) =
      FixedWindow.count r +
      (if 0 <? FixedWindow.remaining (fst (FixedWindow.get_stats self key))
       then 1 else 0).
Proof.
  intros Hr Hw.
  rewrite (fixed_is_allowed_lookup self now key _ Hw). cbv zeta.
  unfold fixed_effective_count. rewrite Hr, Z.eqb_refl.
  assert (Hs : FixedWindow.remaining (fst (FixedWindow.get_stats self key)) =
               Z.max 0 (FixedWindow.limit self - FixedWindow.count r)).
  { unfold FixedWindow.get_stats. rewrite (getitem_present _ _ _ _ Hr).
    reflexivity. }
  rewrite Hs.
  assert (Hb : (FixedWindow.count r <? FixedWindow.limit self) =
               (0 <? Z.max 0 (FixedWindow.limit self - FixedWindow.count r))).
  { destruct (Z.ltb_spec (FixedWindow.count r) (FixedWindow.limit self));
      symmetry; [apply Z.ltb_lt|apply Z.ltb_ge]; lia. }
  rewrite <- Hb. eexists. split; [reflexivity|].
  unfold FixedWindow.get_stats, getitem. cbn. rewrite lookup_insert_eq. cbn.
  destruct (_ <? _); lia.
Qed.

Lemma fixed_window_stats_predict_witness :
  exists self',
    FixedWindow.is_allowed fixed_5_10_full (99 # 10) "user1"%string =
      ok (false, self').
Proof.
  destruct (fixed_window_stats_predict fixed_5_10_full (99 # 10) "user1"%string
              {| FixedWindow.count := 5; FixedWindow.window_start := 0 |})
    as (self' & Hcall & _); [reflexivity|reflexivity|].
  exists self'. exact Hcall.
Defined.

(** One [is_allowed] of the sliding window log, written on the stored log. *)
Lemma log_is_allowed_lookup (self : SlidingWindowLog.t) (now : Q) (key : string) :
  let log :=
    SlidingWindowLog.purge (now - SlidingWindowLog.window_size self)%Q
      (default [] (SlidingWindowLog.logs self !! key)) in
  let b := Z.of_nat (length log) <? SlidingWindowLog.limit self in
  SlidingWindowLog.is_allowed self now key =
    (b, SlidingWindowLog.set_logs self
          (<[key := log ++ (if b then [now] else [])]>
             (SlidingWindowLog.logs self))).
Proof.
  intros log b. unfold SlidingWindowLog.is_allowed.
  pose proof (fun v => getitem_insert (V := list Q) [] v
                         (SlidingWindowLog.logs self) key) as Hins.
  assert (Hfst : (getitem [] (SlidingWindowLog.logs self) key).1 =
                 default [] (SlidingWindowLog.logs self !! key)).
  { unfold getitem. destruct (SlidingWindowLog.logs self !! key); reflexivity. }
  destruct (getitem [] (SlidingWindowLog.logs self) key) as [l logs'].
  cbn [fst snd] in Hins, Hfst. subst l. fold log. fold b.
  destruct b; rewrite Hins; [reflexivity|]. rewrite app_nil_r. reflexivity.
Qed.

(** ** Keys are independent *)

(** A call for one key changes neither the configuration nor the record of
    any other key, in all five strategies. *)
Theorem is_allowed_other_keys :
  (forall (self : FixedWindow.t) now key b self',
     FixedWindow.is_allowed self now key = ok (b, self') ->
     FixedWindow.limit self' = FixedWindow.limit self /\
     FixedWindow.window_size self' = FixedWindow.window_size self /\
     forall k, k <> key ->
       FixedWindow.counters self' !! k = FixedWindow.counters self !! k) /\
  (forall (self : SlidingWindowLog.t) now key,
     let self' := snd (SlidingWindowLog.is_allowed self now key) in
     SlidingWindowLog.limit self' = SlidingWindowLog.limit self /\
     SlidingWindowLog.window_size self' = SlidingWindowLog.window_size self /\
     forall k, k <> key ->
       SlidingWindowLog.logs self' !! k = SlidingWindowLog.logs self !! k) /\
  (forall (self : SlidingWindowCounter.t) now key b self',
     SlidingWindowCounter.is_allowed self now key = ok (b, self') ->
     SlidingWindowCounter.limit self' = SlidingWindowCounter.limit self /\
     SlidingWindowCounter.window_size self' =
       SlidingWindowCounter.window_size self /\
     forall k, k <> key ->
       SlidingWindowCounter.windows self' !! k =
       SlidingWindowCounter.windows self !! k) /\
  (forall (self : TokenBucket.t) now created key cost,
     let self' := snd (TokenBucket.is_allowed self now created key cost) in
     TokenBucket.capacity self' = TokenBucket.capacity self /\
     TokenBucket.refill_rate self' = TokenBucket.refill_rate self /\
     forall k, k <> key ->
       TokenBucket.buckets self' !! k = TokenBucket.buckets self !! k) /\
  (forall (self : LeakyBucket.t) now created key,
     let self' := snd (LeakyBucket.is_allowed self now created key) in
     LeakyBucket.capacity self' = LeakyBucket.capacity self /\
     LeakyBucket.leak_rate self' = LeakyBucket.leak_rate self /\
     forall k, k <> key ->
       LeakyBucket.buckets self' !! k = LeakyBucket.buckets self !! k).
Proof.
  repeat apply conj.
  - intros self now key b self'. unfold FixedWindow.is_allowed.
    destruct (floordiv _ _) as [e|w]; [discriminate|]. rewrite bind_ok.
    pose proof (getitem_frame FixedWindow.default (FixedWindow.counters self)
                  key) as (_ & _ & Hother).
    destruct (getitem _ _ key) as [r d]. cbn [snd] in Hother.
    destruct (_ <? _); intros [= <- <-]; cbn;
      (split; [reflexivity|]; split; [reflexivity|]);
      intros k Hk; rewrite lookup_insert_ne by congruence; exact (Hother k Hk).
  - intros self now key. rewrite log_is_allowed_lookup. cbn.
    split; [reflexivity|]. split; [reflexivity|].
    intros k Hk. rewrite lookup_insert_ne by congruence. reflexivity.
  - intros self now key b self'. unfold SlidingWindowCounter.is_allowed.
    destruct (floordiv _ _) as [e|w]; [discriminate|]. rewrite bind_ok.
    pose proof (getitem_frame SlidingWindowCounter.default
                  (SlidingWindowCounter.windows self) key) as (_ & _ & Hother).
    destruct (getitem _ _ key) as [r d]. cbn [snd] in Hother.
    destruct (SlidingWindowCounter.weigh _ _ _ _) as [e|wc]; [discriminate|].
    rewrite bind_ok.
    destruct (ltb _ _); intros [= <- <-]; cbn;
      (split; [reflexivity|]; split; [reflexivity|]);
      intros k Hk; rewrite lookup_insert_ne by congruence; exact (Hother k Hk).
  - intros self now created key cost. rewrite token_is_allowed_lookup. cbn.
    split; [reflexivity|]. split; [reflexivity|].
    intros k Hk. rewrite lookup_insert_ne by congruence. reflexivity.
  - intros self now created key. rewrite leaky_is_allowed_lookup. cbn.
    split; [reflexivity|]. split; [reflexivity|].
    intros k Hk. rewrite lookup_insert_ne by congruence. reflexivity.
Qed.

Lemma is_allowed_other_keys_witness :
  LeakyBucket.buckets
    (snd (LeakyBucket.is_allowed
            (snd (LeakyBucket.run leaky_2_1 leaky_calls)) 2 2 "user9"%string))
    !! "user5"%string =
  LeakyBucket.buckets (snd (LeakyBucket.run leaky_2_1 leaky_calls))
    !! "user5"%string.
Proof.
  destruct is_allowed_other_keys as (_ & _ & _ & _ & Hleaky).
  apply Hleaky. discriminate.
Defined.

(** ** Sliding window log: the stored timestamps *)

Lemma ascending_app (l : list Q) (now : Q) :
  ascending l -> Forall (fun ts => (ts <= now)%Q) l -> ascending (l ++ [now]).
Proof.
  induction l as [|ts l IH]; cbn.
  - intros _ _. split; constructor.
  - intros [Hhd Hasc] Hall. apply Forall_cons in Hall as [Hts Hall]. split.
    + apply Forall_app. split; [exact Hhd|]. constructor; [exact Hts|constructor].
    + apply IH; assumption.
Qed.

Lemma ascending_suffix (l1 l2 : list Q) : ascending (l1 ++ l2) -> ascending l2.
Proof.
  induction l1 as [|ts l1 IH]; cbn; [auto|]. intros [_ H]. exact (IH H).
Qed.

Lemma ascending_lower (c : Q) (l : list Q) :
  ascending l ->
  match l with [] => True | ts :: _ => (c <= ts)%Q end ->
  Forall (fun ts => (c <= ts)%Q) l.
Proof.
  destruct l as [|ts l]; cbn; [constructor|]. intros [Hhd _] Hc.
  constructor; [exact Hc|].
  eapply Forall_impl; [exact Hhd|]. cbn. intros y Hy. lra.
Qed.

(** On an ascending log, dropping the expired front entries removes every
    expired entry: the purge of [is_allowed] keeps what the filter of
    [get_stats] counts. *)
Lemma purge_filter (cutoff : Q) (log : list Q) :
  ascending log ->
  SlidingWindowLog.purge cutoff log =
    List.filter (fun ts => geb ts cutoff) log.
Proof.
  induction log as [|ts log IH]; cbn; [reflexivity|]. intros [Hhd Hasc].
  unfold geb at 1. destruct (ltb ts cutoff) eqn:E; cbn.
  - apply IH, Hasc.
  - apply ltb_ge in E. f_equal. symmetry.
    apply forallb_filter_id. apply forallb_forall. intros y Hy.
    apply geb_ge. rewrite Forall_forall in Hhd.
    specialize (Hhd y (proj2 (list_elem_of_In _ _) Hy)). lra.
Qed.

(** For a key whose log is ascending, the statistics and the next call at
    the same clock reading agree: [requests_made] is the number of entries
    the call finds after its purge, the call is let through exactly when
    [remaining] is positive, and it then adds one entry. *)
Theorem sliding_log_stats_agree (self : SlidingWindowLog.t) (now : Q)
    (key : string) :
  ascending (default [] (SlidingWindowLog.logs self !! key)) ->
  let s := fst (SlidingWindowLog.get_stats self now key) in
  let r := SlidingWindowLog.is_allowed self now key in
  fst r = (0 <? SlidingWindowLog.remaining s) /\
  exists log',
    SlidingWindowLog.logs (snd r) !! key = Some log' /\
    Z.of_nat (length log') =
      SlidingWindowLog.requests_made s + (if fst r then 1 else 0).
Proof.
  intros Hasc s r.
  assert (Hs : s =
    let n := Z.of_nat (length (SlidingWindowLog.purge
                 (now - SlidingWindowLog.window_size self)%Q
                 (default [] (SlidingWindowLog.logs self !! key)))) in
    {| SlidingWindowLog.requests_made := n;
       SlidingWindowLog.stats_limit := SlidingWindowLog.limit self;
       SlidingWindowLog.remaining := Z.max 0 (SlidingWindowLog.limit self - n);
       SlidingWindowLog.oldest_request :=
         head (default [] (SlidingWindowLog.logs self !! key)) |}).
  { unfold s, SlidingWindowLog.get_stats. rewrite (purge_filter _ _ Hasc).
    unfold getitem. destruct (SlidingWindowLog.logs self !! key); reflexivity. }
  unfold r. rewrite log_is_allowed_lookup, Hs. cbn.
  set (n := Z.of_nat (length (SlidingWindowLog.purge _ _))). split.
  - destruct (Z.ltb_spec n (SlidingWindowLog.limit self));
      symmetry; [apply Z.ltb_lt|apply Z.ltb_ge]; lia.
  - eexists. rewrite lookup_insert_eq. split; [reflexivity|].
    rewrite length_app. fold n. destruct (n <? _); cbn; lia.
Qed.

Lemma sliding_log_stats_agree_witness :
  fst (SlidingWindowLog.is_allowed
         (snd (SlidingWindowLog.run log_3_5 log_calls)) 6 "user3"%string) =
  (0 <? SlidingWindowLog.remaining
          (fst (SlidingWindowLog.get_stats
                  (snd (SlidingWindowLog.run log_3_5 log_calls)) 6
                  "user3"%string))).
Proof.
  apply (sliding_log_stats_agree
           (snd (SlidingWindowLog.run log_3_5 log_calls)) 6 "user3"%string).
  vm_compute. repeat constructor; discriminate.
Defined.

Lemma log_step_length (self : SlidingWindowLog.t) (now : Q) (key : string) :
  0 <= SlidingWindowLog.limit self ->
  (forall k log, SlidingWindowLog.logs self !! k = Some log ->
                 Z.of_nat (length log) <= SlidingWindowLog.limit self) ->
  forall k log,
    SlidingWindowLog.logs (snd (SlidingWindowLog.is_allowed self now key)) !! k
      = Some log ->
    Z.of_nat (length log) <= SlidingWindowLog.limit self.
Proof.
  intros Hlim Hinv k log. rewrite log_is_allowed_lookup. cbn.
  destruct (decide (key = k)) as [->|Hne].
  - rewrite lookup_insert_eq. intros [= <-]. rewrite length_app.
    destruct (Z.ltb_spec
                (Z.of_nat (length (SlidingWindowLog.purge
                   (now - SlidingWindowLog.window_size self)%Q
                   (default [] (SlidingWindowLog.logs self !! k)))))
                (SlidingWindowLog.limit self)) as [Hlt|Hge]; cbn [length]; [lia|].
    destruct (SlidingWindowLog.logs self !! k) as [old|] eqn:E; cbn in *.
    + destruct (purge_split (now - SlidingWindowLog.window_size self)%Q old)
        as (expired & Hold & _).
      specialize (Hinv k old E). rewrite Hold, length_app in Hinv. lia.
    + lia.
  - rewrite lookup_insert_ne by exact Hne. apply Hinv.
Qed.

Lemma log_is_allowed_config (self : SlidingWindowLog.t) (now : Q) (key : string) :
  SlidingWindowLog.limit (snd (SlidingWindowLog.is_allowed self now key)) =
    SlidingWindowLog.limit self /\
  SlidingWindowLog.window_size (snd (SlidingWindowLog.is_allowed self now key)) =
    SlidingWindowLog.window_size self.
Proof. rewrite log_is_allowed_lookup. split; reflexivity. Qed.

Lemma log_run_length (calls : list (Q * string)) :
  forall self : SlidingWindowLog.t,
    0 <= SlidingWindowLog.limit self ->
    (forall k log, SlidingWindowLog.logs self !! k = Some log ->
                   Z.of_nat (length log) <= SlidingWindowLog.limit self) ->
    forall k log,
      SlidingWindowLog.logs (snd (SlidingWindowLog.run self calls)) !! k
        = Some log ->
      Z.of_nat (length log) <= SlidingWindowLog.limit self.
Proof.
  induction calls as [|[now key] calls IH]; intros self Hlim Hinv; cbn.
  - exact Hinv.
  - pose proof (log_step_length self now key Hlim Hinv) as Hstep.
    destruct (log_is_allowed_config self now key) as [Hl _].
    rewrite <- Hl in Hstep |- *. apply IH; [rewrite Hl; exact Hlim|exact Hstep].
Qed.

(** A sliding window log built with a non-negative limit never stores more
    than [limit] timestamps for any key, whatever the calls and the clock. *)
Theorem sliding_log_length_bound (limit : Z) (window_size : Q)
    (calls : list (Q * string)) (self0 : SlidingWindowLog.t) :
  0 <= limit ->
  SlidingWindowLog.init limit window_size = ok self0 ->
  forall key log,
    SlidingWindowLog.logs (snd (SlidingWindowLog.run self0 calls)) !! key
      = Some log ->
    Z.of_nat (length log) <= limit.
Proof.
  intros Hlim [= <-].
  apply (log_run_length calls
           {| SlidingWindowLog.limit := limit;
              SlidingWindowLog.window_size := window_size;
              SlidingWindowLog.logs := ∅ |} Hlim).
  intros k log. cbn. rewrite lookup_empty. discriminate.
Qed.

Lemma sliding_log_length_bound_witness :
  0 <= 3 /\
  Z.of_nat (length (default []
    (SlidingWindowLog.logs (snd (SlidingWindowLog.run log_3_5 log_accuracy))
       !! "user3"%string))) <= 3.
Proof.
  split; [discriminate|].
  destruct (SlidingWindowLog.logs
              (snd (SlidingWindowLog.run log_3_5 log_accuracy))
              !! "user3"%string) as [log|] eqn:E; [|discriminate].
  apply (sliding_log_length_bound 3 5 log_accuracy log_3_5
           ltac:(discriminate) eq_refl "user3"%string log E).
Defined.

Lemma log_step_ascending (self : SlidingWindowLog.t) (t now : Q) (key : string) :
  (t <= now)%Q ->
  (forall k log, SlidingWindowLog.logs self !! k = Some log ->
                 ascending log /\ Forall (fun ts => (ts <= t)%Q) log) ->
  forall k log,
    SlidingWindowLog.logs (snd (SlidingWindowLog.is_allowed self now key)) !! k
      = Some log ->
    (ascending log /\ Forall (fun ts => (ts <= now)%Q) log) /\
    (k = key ->
     Forall (fun ts =>
               (now - SlidingWindowLog.window_size self <= ts)%Q) log \/
     (SlidingWindowLog.window_size self < 0)%Q).
Proof.
  intros Ht Hinv k log. rewrite log_is_allowed_lookup. cbn.
  assert (Hweak : forall l, Forall (fun ts => (ts <= t)%Q) l ->
                            Forall (fun ts => (ts <= now)%Q) l).
  { intros l Hl. eapply Forall_impl; [exact Hl|]. cbn. intros ts Hts. lra. }
  destruct (decide (key = k)) as [->|Hne].
  - rewrite lookup_insert_eq. intros [= <-].
    set (old := default [] (SlidingWindowLog.logs self !! k)).
    assert (Hold : ascending old /\ Forall (fun ts => (ts <= t)%Q) old).
    { unfold old. destruct (SlidingWindowLog.logs self !! k) as [l|] eqn:E; cbn.
      - exact (Hinv k l E).
      - split; constructor. }
    destruct Hold as [Hasc Hle].
    set (cutoff := (now - SlidingWindowLog.window_size self)%Q).
    destruct (purge_split cutoff old) as (expired & Hsplit & _ & Hhd).
    assert (Hasc' : ascending (SlidingWindowLog.purge cutoff old)).
    { apply (ascending_suffix expired). rewrite <- Hsplit. exact Hasc. }
    assert (Hle' : Forall (fun ts => (ts <= now)%Q)
                     (SlidingWindowLog.purge cutoff old)).
    { apply Hweak. rewrite Hsplit in Hle. apply Forall_app in Hle. apply Hle. }
    pose proof (ascending_lower cutoff _ Hasc' Hhd) as Hlow.
    destruct (_ <? _).
    + split.
      * split; [apply ascending_app; assumption|].
        apply Forall_app. split; [exact Hle'|].
        constructor; [lra|constructor].
      * intros _.
        destruct (Qlt_le_dec (SlidingWindowLog.window_size self) 0)
          as [Hneg|Hpos]; [right; exact Hneg|left].
        apply Forall_app. split; [exact Hlow|].
        constructor; [unfold cutoff; lra|constructor].
    + rewrite app_nil_r. split; [split; assumption|]. intros _. left. exact Hlow.
  - rewrite lookup_insert_ne by exact Hne. intros Hk.
    destruct (Hinv k log Hk) as [Hasc Hle].
    split; [split; [exact Hasc|apply Hweak, Hle]|]. congruence.
Qed.

Lemma log_run_config (calls : list (Q * string)) :
  forall self : SlidingWindowLog.t,
    SlidingWindowLog.limit (snd (SlidingWindowLog.run self calls)) =
      SlidingWindowLog.limit self /\
    SlidingWindowLog.window_size (snd (SlidingWindowLog.run self calls)) =
      SlidingWindowLog.window_size self.
Proof.
  induction calls as [|[now key] calls IH]; intros self; cbn; [auto|].
  destruct (IH (snd (SlidingWindowLog.is_allowed self now key))) as [Hl Hw].
  destruct (log_is_allowed_config self now key) as [Hl' Hw'].
  split; congruence.
Qed.

Lemma log_run_ascending (calls : list (Q * string)) :
  forall (self : SlidingWindowLog.t) (t : Q),
    clock_monotone t calls ->
    (forall k log, SlidingWindowLog.logs self !! k = Some log ->
                   ascending log /\ Forall (fun ts => (ts <= t)%Q) log) ->
    forall k log,
      SlidingWindowLog.logs (snd (SlidingWindowLog.run self calls)) !! k
        = Some log ->
      ascending log /\ Forall (fun ts => (ts <= last_time t calls)%Q) log.
Proof.
  induction calls as [|[now key] calls IH]; intros self t Hmono Hinv; cbn.
  - exact Hinv.
  - destruct Hmono as [Ht Hmono]. cbn [fst] in Ht, Hmono.
    apply (IH _ now Hmono). intros k log Hk.
    apply (log_step_ascending self t now key Ht Hinv k log Hk).
Qed.

(** Under a clock that never goes back, every log is ascending and holds
    nothing later than the last call; and right after a call for a key at
    [now], with a non-negative window size, every timestamp stored for that
    key lies in [[now - window_size, now]]. *)
Theorem sliding_log_window (limit : Z) (window_size : Q) (t0 now : Q)
    (calls : list (Q * string)) (key : string) (self0 : SlidingWindowLog.t) :
  (0 <= window_size)%Q ->
  SlidingWindowLog.init limit window_size = ok self0 ->
  clock_monotone t0 calls ->
  (last_time t0 calls <= now)%Q ->
  let self := snd (SlidingWindowLog.run self0 calls) in
  (forall k log, SlidingWindowLog.logs self !! k = Some log ->
     ascending log /\
     Forall (fun ts => (ts <= last_time t0 calls)%Q) log) /\
  exists log,
    SlidingWindowLog.logs (snd (SlidingWindowLog.is_allowed self now key)) !! key
      = Some log /\
    ascending log /\
    Forall (fun ts => (now - window_size <= ts)%Q /\ (ts <= now)%Q) log.
Proof.
  intros Hws [= <-] Hmono Hnow self.
  assert (Hinv : forall k log, SlidingWindowLog.logs self !! k = Some log ->
            ascending log /\
            Forall (fun ts => (ts <= last_time t0 calls)%Q) log).
  { apply (log_run_ascending calls _ t0 Hmono). intros k log. cbn.
    rewrite lookup_empty. discriminate. }
  split; [exact Hinv|].
  assert (Hsize : SlidingWindowLog.window_size self = window_size).
  { unfold self. rewrite (proj2 (log_run_config calls _)). reflexivity. }
  destruct (SlidingWindowLog.logs
              (snd (SlidingWindowLog.is_allowed self now key)) !! key)
    as [log|] eqn:E.
  - destruct (log_step_ascending self _ now key Hnow Hinv key log E)
      as [[Hasc Hle] Hlow].
    exists log. split; [reflexivity|]. split; [exact Hasc|].
    destruct (Hlow eq_refl) as [Hge|Hneg]; [|rewrite Hsize in Hneg; lra].
    rewrite Hsize in Hge. rewrite Forall_forall in Hge, Hle |- *.
    intros ts Hts. split; [apply Hge, Hts|apply Hle, Hts].
  - rewrite log_is_allowed_lookup in E. cbn in E.
    rewrite lookup_insert_eq in E. discriminate.
Qed.

Lemma sliding_log_window_witness :
  exists log,
    SlidingWindowLog.logs
      (snd (SlidingWindowLog.is_allowed
              (snd (SlidingWindowLog.run log_3_5 log_calls)) 6 "user3"%string))
      !! "user3"%string = Some log /\
    ascending log /\
    Forall (fun ts => (6 - 5 <= ts)%Q /\ (ts <= 6)%Q) log.
Proof.
  apply (sliding_log_window 3 5 0 6 log_calls "user3"%string log_3_5).
  - discriminate.
  - reflexivity.
  - cbn. repeat split; discriminate.
  - discriminate.
Defined.

(** ** Sliding window counter *)

(** One [is_allowed], written on the stored record. *)
Lemma counter_is_allowed_lookup (self : SlidingWindowCounter.t) (now : Q)
    (key : string) :
  ~ (SlidingWindowCounter.window_size self == 0)%Q ->
  let ws := SlidingWindowCounter.window_size self in
  let cw := Qfloor (now / ws) in
  let wd :=
    SlidingWindowCounter.slide cw
      (default SlidingWindowCounter.default
         (SlidingWindowCounter.windows self !! key)) in
  let b := ltb (weighted ws now wd) (inject_Z (SlidingWindowCounter.limit self)) in
  SlidingWindowCounter.is_allowed self now key =
    ok (b,
        SlidingWindowCounter.set_windows self
          (<[key := {| SlidingWindowCounter.current :=
                         SlidingWindowCounter.current wd + (if b then 1 else 0);
                       SlidingWindowCounter.previous :=
                         SlidingWindowCounter.previous wd;
                       SlidingWindowCounter.current_start :=
                         SlidingWindowCounter.current_start wd |}]>
             (SlidingWindowCounter.windows self))).
Proof.
  intros Hnz ws cw wd b. unfold SlidingWindowCounter.is_allowed.
  fold ws. rewrite (floordiv_ok now ws Hnz), bind_ok. fold cw.
  pose proof (fun v => getitem_insert SlidingWindowCounter.default v
                         (SlidingWindowCounter.windows self) key) as Hins.
  assert (Hfst : (getitem SlidingWindowCounter.default
                    (SlidingWindowCounter.windows self) key).1 =
                 default SlidingWindowCounter.default
                   (SlidingWindowCounter.windows self !! key)).
  { unfold getitem.
    destruct (SlidingWindowCounter.windows self !! key); reflexivity. }
  destruct (getitem _ _ key) as [r d]. cbn [fst snd] in Hins, Hfst. subst r.
  fold wd. unfold SlidingWindowCounter.weigh. fold ws.
  rewrite (truediv_ok _ ws Hnz), !bind_ok.
  change (ltb _ (inject_Z (SlidingWindowCounter.limit self))) with b.
  destruct b; rewrite Hins; [reflexivity|].
  rewrite Z.add_0_r. destruct wd; reflexivity.
Qed.

Lemma window_ratio_range (ws now : Q) :
  (0 < ws)%Q -> (0 <= window_ratio ws now)%Q /\ (window_ratio ws now < 1)%Q.
Proof. intros Hws. exact (window_offset now ws Hws). Qed.

Lemma weighted_range (ws now : Q) (wd : SlidingWindowCounter.window_data) :
  (0 < ws)%Q ->
  0 <= SlidingWindowCounter.previous wd ->
  (inject_Z (SlidingWindowCounter.current wd) <= weighted ws now wd)%Q /\
  (weighted ws now wd <= inject_Z (SlidingWindowCounter.current wd) +
                         inject_Z (SlidingWindowCounter.previous wd))%Q.
Proof.
  intros Hws Hprev. destruct (window_ratio_range ws now Hws) as [Hlo Hhi].
  unfold weighted.
  assert (Hp : (0 <= inject_Z (SlidingWindowCounter.previous wd))%Q).
  { change 0%Q with (inject_Z 0). rewrite <- Zle_Qle. exact Hprev. }
  set (p := inject_Z (SlidingWindowCounter.previous wd)) in *.
  set (r := window_ratio ws now) in *.
  assert (Hpr : (0 <= p * r)%Q) by (apply Qmult_le_0_compat; assumption).
  assert (Hpr' : (0 <= p * (1 - r))%Q).
  { apply Qmult_le_0_compat; [assumption|lra]. }
  split; lra.
Qed.

Lemma counter_step_bounds (self : SlidingWindowCounter.t) (now : Q)
    (key : string) :
  (0 < SlidingWindowCounter.window_size self)%Q ->
  0 <= SlidingWindowCounter.limit self ->
  (forall k wd, SlidingWindowCounter.windows self !! k = Some wd ->
     0 <= SlidingWindowCounter.current wd <= SlidingWindowCounter.limit self /\
     0 <= SlidingWindowCounter.previous wd <= SlidingWindowCounter.limit self) ->
  exists b self',
    SlidingWindowCounter.is_allowed self now key = ok (b, self') /\
    SlidingWindowCounter.limit self' = SlidingWindowCounter.limit self /\
    SlidingWindowCounter.window_size self' =
      SlidingWindowCounter.window_size self /\
    (forall k wd, SlidingWindowCounter.windows self' !! k = Some wd ->
       0 <= SlidingWindowCounter.current wd <= SlidingWindowCounter.limit self' /\
       0 <= SlidingWindowCounter.previous wd <= SlidingWindowCounter.limit self').
Proof.
  intros Hws Hlim Hinv.
  assert (Hnz : ~ (SlidingWindowCounter.window_size self == 0)%Q).
  { intros H0. rewrite H0 in Hws. exact (Qlt_irrefl _ Hws). }
  rewrite (counter_is_allowed_lookup self now key Hnz). cbv zeta.
  eexists _, _. split; [reflexivity|]. cbn.
  split; [reflexivity|]. split; [reflexivity|].
  set (old := default _ _).
  assert (Hold :
    0 <= SlidingWindowCounter.current old <= SlidingWindowCounter.limit self /\
    0 <= SlidingWindowCounter.previous old <= SlidingWindowCounter.limit self).
  { unfold old.
    destruct (SlidingWindowCounter.windows self !! key) as [wd|] eqn:E; cbn.
    - exact (Hinv key wd E).
    - lia. }
  set (wd := SlidingWindowCounter.slide _ old).
  assert (Hwd :
    0 <= SlidingWindowCounter.current wd <= SlidingWindowCounter.limit self /\
    0 <= SlidingWindowCounter.previous wd <= SlidingWindowCounter.limit self).
  { unfold wd, SlidingWindowCounter.slide. destruct (negb _); cbn; [|exact Hold].
    destruct (_ =? _); lia. }
  intros k r. destruct (decide (key = k)) as [->|Hne].
  - rewrite lookup_insert_eq. intros [= <-]. cbn. split; [|apply Hwd].
    destruct (ltb _ _) eqn:E; [|lia].
    apply ltb_lt in E.
    destruct (weighted_range (SlidingWindowCounter.window_size self) now wd Hws)
      as [Hlo _]; [apply Hwd|].
    assert (Hlt : (inject_Z (SlidingWindowCounter.current wd) <
                   inject_Z (SlidingWindowCounter.limit self))%Q) by lra.
    rewrite <- Zlt_Qlt in Hlt. lia.
  - rewrite lookup_insert_ne by exact Hne. apply Hinv.
Qed.

Lemma counter_run_bounds (calls : list (Q * string)) :
  forall self : SlidingWindowCounter.t,
    (0 < SlidingWindowCounter.window_size self)%Q ->
    0 <= SlidingWindowCounter.limit self ->
    (forall k wd, SlidingWindowCounter.windows self !! k = Some wd ->
       0 <= SlidingWindowCounter.current wd <= SlidingWindowCounter.limit self /\
       0 <= SlidingWindowCounter.previous wd <= SlidingWindowCounter.limit self) ->
    exists bs self',
      counter_run self calls = ok (bs, self') /\
      length bs = length calls /\
      SlidingWindowCounter.limit self' = SlidingWindowCounter.limit self /\
      (forall k wd, SlidingWindowCounter.windows self' !! k = Some wd ->
         0 <= SlidingWindowCounter.current wd <= SlidingWindowCounter.limit self' /\
         0 <= SlidingWindowCounter.previous wd <= SlidingWindowCounter.limit self').
Proof.
  induction calls as [|[now key] calls IH]; intros self Hws Hlim Hinv.
  - exists [], self. repeat split; apply (Hinv k wd H).
  - destruct (counter_step_bounds self now key Hws Hlim Hinv)
      as (b & self1 & Hstep & Hlim1 & Hws1 & Hinv1).
    destruct (IH self1) as (bs & self' & Hrun & Hlen & Hlim' & Hinv');
      [rewrite Hws1; exact Hws|rewrite Hlim1; exact Hlim|exact Hinv1|].
    exists (b :: bs), self'. cbn [counter_run].
    rewrite Hstep, bind_ok. cbn [fst snd]. rewrite Hrun, bind_ok. cbn.
    split; [reflexivity|]. split; [congruence|]. split; [congruence|exact Hinv'].
Qed.

(** A sliding window counter built with a non-negative limit and a positive
    window size answers every call of every trace without raising, and for
    every key keeps both counts, [current] and [previous], within
    [0 .. limit]. *)
Theorem sliding_counter_count_bounds (limit : Z) (window_size : Q)
    (calls : list (Q * string)) (self0 : SlidingWindowCounter.t) :
  0 <= limit ->
  (0 < window_size)%Q ->
  SlidingWindowCounter.init limit window_size = ok self0 ->
  exists bs self,
    counter_run self0 calls = ok (bs, self) /\
    length bs = length calls /\
    forall key wd, SlidingWindowCounter.windows self !! key = Some wd ->
      0 <= SlidingWindowCounter.current wd <= limit /\
      0 <= SlidingWindowCounter.previous wd <= limit.
Proof.
  intros Hlim Hws [= <-].
  destruct (counter_run_bounds calls
              {| SlidingWindowCounter.limit := limit;
                 SlidingWindowCounter.window_size := window_size;
                 SlidingWindowCounter.windows := ∅ |})
    as (bs & self & Hrun & Hlen & Hlim' & Hinv); cbn; try assumption.
  - intros k r. rewrite lookup_empty. discriminate.
  - exists bs, self. split; [exact Hrun|]. split; [exact Hlen|].
    intros key r Hr. cbn in Hlim'. rewrite <- Hlim'. exact (Hinv key r Hr).
Qed.

Lemma sliding_counter_count_bounds_witness :
  exists bs self,
    counter_run
      {| SlidingWindowCounter.limit := 5;
         SlidingWindowCounter.window_size := 10;
         SlidingWindowCounter.windows := ∅ |} double_burst = ok (bs, self) /\
    length bs = length double_burst /\
    forall key wd, SlidingWindowCounter.windows self !! key = Some wd ->
      0 <= SlidingWindowCounter.current wd <= 5 /\
      0 <= SlidingWindowCounter.previous wd <= 5.
Proof.
  apply (sliding_counter_count_bounds 5 10 double_burst).
  - discriminate.
  - reflexivity.
  - reflexivity.
Defined.

(** The double burst of the fixed window does not pass the sliding window
    counter: of the five calls at 10.1 that follow five at 9.9 only one is
    let through. *)
Example counter_double_burst :
  exists self,
    counter_run
      {| SlidingWindowCounter.limit := 5;
         SlidingWindowCounter.window_size := 10;
         SlidingWindowCounter.windows := ∅ |} double_burst =
    ok ([true; true; true; true; true; true; false; false; false; false], self).
Proof. eexists. vm_compute. reflexivity. Qed.

Lemma ltb_inject_Z (x : Q) (a b : Z) :
  (x == inject_Z a)%Q -> ltb x (inject_Z b) = (a <? b).
Proof.
  intros Hx. destruct (Z.ltb_spec a b) as [Hlt|Hge].
  - apply ltb_lt. rewrite Hx, <- Zlt_Qlt. exact Hlt.
  - apply ltb_ge. rewrite Hx, <- Zle_Qle. exact Hge.
Qed.

(** At the exact start of a window the previous window weighs 1, so the
    counter counts both windows in full: a call whose clock reading is a
    multiple of the window size is let through exactly when
    [previous + current < limit], on the record after its rollover.  In
    particular, right at the boundary after a window that was used up
    nothing is let through: the double burst of the fixed window does not
    pass here. *)
Theorem sliding_counter_at_window_start (self : SlidingWindowCounter.t)
    (now : Q) (key : string) :
  let ws := SlidingWindowCounter.window_size self in
  let wd :=
    SlidingWindowCounter.slide (Qfloor (now / ws))
      (default SlidingWindowCounter.default
         (SlidingWindowCounter.windows self !! key)) in
  (0 < ws)%Q ->
  (window_ratio ws now == 0)%Q ->
  exists self',
    SlidingWindowCounter.is_allowed self now key =
      ok (SlidingWindowCounter.previous wd + SlidingWindowCounter.current wd <?
          SlidingWindowCounter.limit self,
          self') /\
    (SlidingWindowCounter.limit self <= SlidingWindowCounter.previous wd ->
     0 <= SlidingWindowCounter.current wd ->
     SlidingWindowCounter.is_allowed self now key = ok (false, self')).
Proof.
  intros ws wd Hws Hstart.
  assert (Hnz : ~ (ws == 0)%Q).
  { intros H0. rewrite H0 in Hws. exact (Qlt_irrefl _ Hws). }
  rewrite (counter_is_allowed_lookup self now key Hnz). cbv zeta.
  fold ws. fold wd.
  assert (Hb : ltb (weighted ws now wd)
                   (inject_Z (SlidingWindowCounter.limit self)) =
               (SlidingWindowCounter.previous wd +
                SlidingWindowCounter.current wd <?
                SlidingWindowCounter.limit self)).
  { apply ltb_inject_Z. unfold weighted. rewrite Hstart, inject_Z_plus. ring. }
  rewrite Hb. eexists. split; [reflexivity|].
  intros Hfull Hcur.
  destruct (Z.ltb_spec (SlidingWindowCounter.previous wd +
                        SlidingWindowCounter.current wd)
              (SlidingWindowCounter.limit self)) as [Hlt|Hge]; [lia|].
  rewrite Z.add_0_r. reflexivity.
Qed.

Lemma sliding_counter_at_window_start_witness :
  exists self',
    SlidingWindowCounter.is_allowed counter_5_10_full 10 "user4"%string =
      ok (false, self').
Proof.
  destruct (sliding_counter_at_window_start counter_5_10_full 10
              "user4"%string) as (self' & _ & Hfull).
  - reflexivity.
  - reflexivity.
  - exists self'. apply Hfull; discriminate.
Defined.

(** A key that was idle for a whole window or more starts afresh: when the
    stored window is neither the clock's nor the one before, the call is let
    through (for a limit of at least 1) and the record becomes one request
    in the current window with nothing carried over. *)
Theorem sliding_counter_idle_reset (self : SlidingWindowCounter.t) (now : Q)
    (key : string) (r : SlidingWindowCounter.window_data) :
  let cw := Qfloor (now / SlidingWindowCounter.window_size self) in
  ~ (SlidingWindowCounter.window_size self == 0)%Q ->
  1 <= SlidingWindowCounter.limit self ->
  SlidingWindowCounter.windows self !! key = Some r ->
  SlidingWindowCounter.current_start r <> cw ->
  SlidingWindowCounter.current_start r <> cw - 1 ->
  SlidingWindowCounter.is_allowed self now key =
    ok (true,
        SlidingWindowCounter.set_windows self
          (<[key := {| SlidingWindowCounter.current := 1;
                       SlidingWindowCounter.previous := 0;
                       SlidingWindowCounter.current_start := cw |}]>
             (SlidingWindowCounter.windows self))).
Proof.
  intros cw Hnz Hlim Hr Hcw Hprev.
  rewrite (counter_is_allowed_lookup self now key Hnz). cbv zeta.
  rewrite Hr. cbn [default]. fold cw.
  assert (Hslide : SlidingWindowCounter.slide cw (id r) =
    {| SlidingWindowCounter.current := 0;
       SlidingWindowCounter.previous := 0;
       SlidingWindowCounter.current_start := cw |}).
  { unfold SlidingWindowCounter.slide, id.
    destruct (Z.eqb_spec (SlidingWindowCounter.current_start r) cw);
      [contradiction|].
    destruct (Z.eqb_spec (SlidingWindowCounter.current_start r) (cw - 1));
      [contradiction|reflexivity]. }
  rewrite Hslide.
  assert (Hb : ltb (weighted (SlidingWindowCounter.window_size self) now
                      {| SlidingWindowCounter.current := 0;
                         SlidingWindowCounter.previous := 0;
                         SlidingWindowCounter.current_start := cw |})
                   (inject_Z (SlidingWindowCounter.limit self)) = true).
  { apply ltb_lt. unfold weighted. cbn. change (inject_Z 0) with 0%Q.
    assert (Hl : (1 <= inject_Z (SlidingWindowCounter.limit self))%Q).
    { change 1%Q with (inject_Z 1). rewrite <- Zle_Qle. exact Hlim. }
    lra. }
  rewrite Hb. reflexivity.
Qed.

Lemma sliding_counter_idle_reset_witness :
  exists self',
    SlidingWindowCounter.is_allowed counter_5_10_full 25 "user4"%string =
      ok (true, self').
Proof.
  eexists.
  apply (sliding_counter_idle_reset counter_5_10_full 25 "user4"%string
           {| SlidingWindowCounter.current := 5;
              SlidingWindowCounter.previous := 0;
              SlidingWindowCounter.current_start := 0 |});
    [discriminate|discriminate|reflexivity|discriminate|discriminate].
Defined.

(** ** Token bucket: refill *)

Lemma py_min_full (a b : Q) : (a <= b)%Q -> py_min a b = a.
Proof.
  intros H. unfold py_min. destruct (ltb b a) eqn:E; [|reflexivity].
  apply ltb_lt in E. lra.
Qed.



Lemma token_calls_from_cost (calls : list TokenBucket.call) :
  forall t, token_calls_from t calls ->
            Forall (fun c => 0 <= TokenBucket.cost c) calls.
Proof.
  induction calls as [|c calls IH]; intros t; cbn; [constructor|].
  intros (_ & _ & Hcost & Hrest). constructor; [lia|exact (IH _ Hrest)].
Qed.

(** When the clock stands still during each call (the factory reads no
    later than the call itself) and never goes back between calls, a token
    bucket built with non-negative capacity and rate keeps every key's
    tokens within [[0, capacity]] over any trace of positive costs. *)
Theorem token_bucket_range_still_clock (capacity refill_rate t : Q)
    (calls : list TokenBucket.call) (self0 : TokenBucket.t) :
  (0 <= capacity)%Q -> (0 <= refill_rate)%Q ->
  TokenBucket.init capacity refill_rate = ok self0 ->
  token_calls_from t calls ->
  forall key b,
    TokenBucket.buckets (snd (TokenBucket.run self0 calls)) !! key = Some b ->
    (0 <= TokenBucket.tokens b)%Q /\ (TokenBucket.tokens b <= capacity)%Q.
Proof.
  intros Hcap Hrate [= <-] Hcalls key b Hb. split.
  - apply (token_bucket_nonneg calls
             {| TokenBucket.capacity := capacity;
                TokenBucket.refill_rate := refill_rate;
                TokenBucket.buckets := ∅ |} t Hcap Hrate Hcalls) with (k := key);
      [|exact Hb].
    intros k b'. cbn. rewrite lookup_empty. discriminate.
  - apply (token_bucket_le_capacity capacity refill_rate calls
             (token_calls_from_cost calls t Hcalls)
             {| TokenBucket.capacity := capacity;
                TokenBucket.refill_rate := refill_rate;
                TokenBucket.buckets := ∅ |} eq_refl) with (k := key);
      [|exact Hb].
    intros k b'. cbn. rewrite lookup_empty. discriminate.
Qed.

Lemma token_bucket_range_still_clock_witness :
  token_calls_from 0 token_burst /\
  exists b,
    TokenBucket.buckets (snd (TokenBucket.run token_5_1 token_burst))
      !! "user2"%string = Some b /\
    (0 <= TokenBucket.tokens b)%Q /\ (TokenBucket.tokens b <= 5)%Q.
Proof.
  assert (Hcalls : token_calls_from 0 token_burst)
    by (cbn; repeat split; discriminate).
  split; [exact Hcalls|].
  destruct (TokenBucket.buckets (snd (TokenBucket.run token_5_1 token_burst))
              !! "user2"%string) as [b|] eqn:E; [|vm_compute in E; discriminate].
  exists b. split; [reflexivity|].
  apply (token_bucket_range_still_clock 5 1 0 token_burst token_5_1
           ltac:(discriminate) ltac:(discriminate) eq_refl Hcalls
           "user2"%string b E).
Defined.

(** ** The first call for a key *)

(** A key that was never seen is created on its first call.  With a limit
    or capacity of at least 1 (and a non-zero window size) the fixed window,
    the sliding window log, the sliding window counter and the leaky bucket
    let that call through, whatever the clock reads.  The token bucket, with
    a non-negative rate, lets it through when the factory's clock reading is
    not later than the call's own: the first refill then leaves the bucket
    full, and the call takes one token of it. *)
Theorem unknown_key_first_call :
  (forall (self : FixedWindow.t) now key,
     1 <= FixedWindow.limit self ->
     ~ (FixedWindow.window_size self == 0)%Q ->
     FixedWindow.counters self !! key = None ->
     exists self', FixedWindow.is_allowed self now key = ok (true, self')) /\
  (forall (self : SlidingWindowLog.t) now key,
     1 <= SlidingWindowLog.limit self ->
     SlidingWindowLog.logs self !! key = None ->
     fst (SlidingWindowLog.is_allowed self now key) = true) /\
  (forall (self : SlidingWindowCounter.t) now key,
     1 <= SlidingWindowCounter.limit self ->
     ~ (SlidingWindowCounter.window_size self == 0)%Q ->
     SlidingWindowCounter.windows self !! key = None ->
     exists self',
       SlidingWindowCounter.is_allowed self now key = ok (true, self')) /\
  (forall (self : LeakyBucket.t) now created key,
     1 <= LeakyBucket.capacity self ->
     LeakyBucket.buckets self !! key = None ->
     fst (LeakyBucket.is_allowed self now created key) = true) /\
  (forall (self : TokenBucket.t) now created key,
     (1 <= TokenBucket.capacity self)%Q ->
     (0 <= TokenBucket.refill_rate self)%Q ->
     (created <= now)%Q ->
     TokenBucket.buckets self !! key = None ->
     TokenBucket.is_allowed self now created key 1 =
       (true,
        TokenBucket.set_buckets self
          (<[key := {| TokenBucket.tokens :=
                         (TokenBucket.capacity self - inject_Z 1)%Q;
                       TokenBucket.last_refill := now |}]>
             (TokenBucket.buckets self)))).
Proof.
  split; [exact fixed_window_first_call|].
  split; [exact sliding_log_first_call|].
  split; [exact sliding_counter_first_call|].
  split; [exact leaky_bucket_first_call|].
  intros self now created key Hcap Hrate Hclock Hkey.
  rewrite token_is_allowed_lookup, Hkey. cbn [default TokenBucket.default
    TokenBucket.tokens TokenBucket.last_refill].
  assert (Hadd : (0 <= (now - created) * TokenBucket.refill_rate self)%Q).
  { apply Qmult_le_0_compat; [lra|exact Hrate]. }
  rewrite py_min_full by lra.
  rewrite (proj2 (geb_ge _ _)); [reflexivity|exact Hcap].
Qed.

Lemma unknown_key_first_call_witness :
  fst (LeakyBucket.is_allowed leaky_2_1 3 4 "user5"%string) = true /\
  fst (TokenBucket.is_allowed token_5_1 4 3 "user2"%string 1) = true.
Proof.
  destruct unknown_key_first_call as (_ & _ & _ & Hleaky & Htoken). split.
  - apply Hleaky; [discriminate|reflexivity].
  - rewrite Htoken; [reflexivity|discriminate|discriminate|discriminate
                    |reflexivity].
Defined.

(** ** Leaky bucket: leaking *)



Lemma py_int_below_one (x : Q) : (x < 1)%Q -> py_int x <= 0.
Proof.
  destruct x as [n d]. unfold Qlt, py_int. cbn. intros Hn.
  destruct (Z.le_gt_cases 0 n) as [Hpos|Hneg].
  - rewrite Z.quot_small; lia.
  - rewrite <- (Z.quot_0_l (Z.pos d)) by lia. apply Z.quot_le_mono; lia.
Qed.



(** The leak is measured from the last call, not from the last leak: a call
    that comes at most half a leak interval after the one before leaks
    nothing and still moves [last_leak].  So a full queue that is polled
    that often stays full and every poll is refused, however long the
    polling goes on. *)
Theorem leaky_bucket_polling_starves (calls : list LeakyBucket.call) :
  forall (self : LeakyBucket.t) (key : string) (b : LeakyBucket.bucket),
    LeakyBucket.buckets self !! key = Some b ->
    LeakyBucket.capacity self <= Z.of_nat (length (LeakyBucket.queue b)) ->
    leaky_polls key (LeakyBucket.leak_rate self) (LeakyBucket.last_leak b) calls ->
    fst (LeakyBucket.run self calls) = repeat false (length calls) /\
    LeakyBucket.queue_of (snd (LeakyBucket.run self calls)) key =
      LeakyBucket.queue b.
Proof.
  induction calls as [|c calls IH]; intros self key b Hb Hfull Hpolls.
  - cbn. unfold LeakyBucket.queue_of. rewrite Hb. split; reflexivity.
  - destruct Hpolls as (Hkey & Hgap & Hrest).
    cbn [LeakyBucket.run fst snd length repeat].
    assert (Hstep :
      LeakyBucket.is_allowed self (LeakyBucket.now c) (LeakyBucket.created c)
        (LeakyBucket.key c) =
      (false,
       LeakyBucket.set_buckets self
         (<[key := {| LeakyBucket.queue := LeakyBucket.queue b;
                      LeakyBucket.last_leak := LeakyBucket.now c |}]>
            (LeakyBucket.buckets self)))).
    { rewrite leaky_is_allowed_lookup, Hkey, Hb. cbn [default id]. unfold id.
      assert (Hleak : py_int ((LeakyBucket.now c - LeakyBucket.last_leak b) *
                              LeakyBucket.leak_rate self) <= 0).
      { apply py_int_below_one. lra. }
      assert (Hnone :
        Z.to_nat (Z.min (py_int ((LeakyBucket.now c - LeakyBucket.last_leak b) *
                                 LeakyBucket.leak_rate self))
                        (Z.of_nat (length (LeakyBucket.queue b)))) = 0%nat)
        by lia.
      unfold LeakyBucket.leak. rewrite Hnone, drop_0.
      destruct (Z.ltb_spec (Z.of_nat (length (LeakyBucket.queue b)))
                  (LeakyBucket.capacity self)); [lia|].
      rewrite app_nil_r. reflexivity. }
    rewrite Hstep. cbn [fst snd].
    destruct (IH (LeakyBucket.set_buckets self
                    (<[key := {| LeakyBucket.queue := LeakyBucket.queue b;
                                 LeakyBucket.last_leak := LeakyBucket.now c |}]>
                       (LeakyBucket.buckets self)))
                 key
                 {| LeakyBucket.queue := LeakyBucket.queue b;
                    LeakyBucket.last_leak := LeakyBucket.now c |})
      as [Hres Hqueue].
    + cbn. apply lookup_insert_eq.
    + exact Hfull.
    + exact Hrest.
    + rewrite Hres, Hqueue. split; reflexivity.
Qed.

Lemma leaky_bucket_polling_starves_witness :
  fst (LeakyBucket.run leaky_2_1_full leaky_polling) =
    [false; false; false; false].
Proof.
  apply (leaky_bucket_polling_starves leaky_polling leaky_2_1_full
           "user5"%string
           {| LeakyBucket.queue := [0; 0]%Q; LeakyBucket.last_leak := 0 |}).
  - reflexivity.
  - discriminate.
  - cbn. repeat split; discriminate.
Defined.

(** ** Limits that refuse everything *)

(** A limiter built with a limit or capacity of zero or less, which the
    constructors accept, never lets a call through: the sliding window log
    and the leaky bucket in any state, the fixed window and the sliding
    window counter whenever the key's stored counts are not negative. *)
Theorem nonpositive_limit_refuses :
  (forall (self : FixedWindow.t) now key,
     FixedWindow.limit self <= 0 ->
     ~ (FixedWindow.window_size self == 0)%Q ->
     (forall r, FixedWindow.counters self !! key = Some r ->
                0 <= FixedWindow.count r) ->
     exists self', FixedWindow.is_allowed self now key = ok (false, self')) /\
  (forall (self : SlidingWindowLog.t) now key,
     SlidingWindowLog.limit self <= 0 ->
     fst (SlidingWindowLog.is_allowed self now key) = false) /\
  (forall (self : SlidingWindowCounter.t) now key,
     SlidingWindowCounter.limit self <= 0 ->
     (0 < SlidingWindowCounter.window_size self)%Q ->
     (forall r, SlidingWindowCounter.windows self !! key = Some r ->
                0 <= SlidingWindowCounter.current r /\
                0 <= SlidingWindowCounter.previous r) ->
     exists self',
       SlidingWindowCounter.is_allowed self now key = ok (false, self')) /\
  (forall (self : LeakyBucket.t) now created key,
     LeakyBucket.capacity self <= 0 ->
     fst (LeakyBucket.is_allowed self now created key) = false).
Proof.
  repeat apply conj.
  - intros self now key Hlim Hnz Hinv.
    rewrite (fixed_is_allowed_lookup self now key _ (floordiv_ok now _ Hnz)).
    cbv zeta.
    assert (Hc : 0 <= fixed_effective_count self key
                        (Qfloor (now / FixedWindow.window_size self))).
    { unfold fixed_effective_count.
      destruct (FixedWindow.counters self !! key) as [r|] eqn:E; [|lia].
      destruct (_ =? _); [exact (Hinv r eq_refl)|lia]. }
    destruct (Z.ltb_spec (fixed_effective_count self key
                            (Qfloor (now / FixedWindow.window_size self)))
                (FixedWindow.limit self)); [lia|].
    eexists. reflexivity.
  - intros self now key Hlim. rewrite log_is_allowed_lookup. cbn.
    apply Z.ltb_ge. lia.
  - intros self now key Hlim Hws Hinv.
    assert (Hnz : ~ (SlidingWindowCounter.window_size self == 0)%Q).
    { intros H0. rewrite H0 in Hws. exact (Qlt_irrefl _ Hws). }
    rewrite (counter_is_allowed_lookup self now key Hnz). cbv zeta.
    set (old := default _ _).
    assert (Hold : 0 <= SlidingWindowCounter.current old /\
                   0 <= SlidingWindowCounter.previous old).
    { unfold old.
      destruct (SlidingWindowCounter.windows self !! key) as [r|] eqn:E; cbn.
      - exact (Hinv r eq_refl).
      - lia. }
    destruct (slide_nonneg (Qfloor (now / SlidingWindowCounter.window_size self))
                old (proj1 Hold) (proj2 Hold)) as [Hc Hp].
    set (wd := SlidingWindowCounter.slide _ old) in *.
    destruct (weighted_range (SlidingWindowCounter.window_size self) now wd
                Hws Hp) as [Hlo _].
    assert (Hb : ltb (weighted (SlidingWindowCounter.window_size self) now wd)
                     (inject_Z (SlidingWindowCounter.limit self)) = false).
    { apply ltb_ge.
      assert (H1 : (inject_Z (SlidingWindowCounter.limit self) <= inject_Z 0)%Q)
        by (rewrite <- Zle_Qle; exact Hlim).
      assert (H2 : (inject_Z 0 <= inject_Z (SlidingWindowCounter.current wd))%Q)
        by (rewrite <- Zle_Qle; exact Hc).
      lra. }
    rewrite Hb. eexists. reflexivity.
  - intros self now created key Hcap. rewrite leaky_is_allowed_lookup. cbn.
    apply Z.ltb_ge. lia.
Qed.

Lemma nonpositive_limit_refuses_witness :
  fst (LeakyBucket.is_allowed
         {| LeakyBucket.capacity := 0; LeakyBucket.leak_rate := 1;
            LeakyBucket.buckets := ∅ |} 0 0 "user5"%string) = false.
Proof.
  destruct nonpositive_limit_refuses as (_ & _ & _ & Hleaky).
  apply Hleaky. discriminate.
Defined.

(** ** Call sites *)

Lemma login_key_inj (u v : string) : "login:" +:+ u = "login:" +:+ v -> u = v.
Proof. intros H. cbv [String.append] in H. injection H. auto. Qed.

Lemma string_app_assoc (s1 s2 s3 : string) :
  (s1 +:+ s2) +:+ s3 = s1 +:+ (s2 +:+ s3).
Proof.
  induction s1 as [|a s1 IH]; [reflexivity|].
  change ((String a s1 +:+ s2) +:+ s3) with (String a ((s1 +:+ s2) +:+ s3)).
  change (String a s1 +:+ (s2 +:+ s3)) with (String a (s1 +:+ (s2 +:+ s3))).
  rewrite IH. reflexivity.
Qed.

(** Login budgets are per user: an attempt by one user leaves the record of
    every other user as it was, and so does not change the reply any other
    user would get, at whatever time. *)
Theorem login_attempt_users_independent (self self' : FixedWindow.t)
    (now : Q) (u v msg : string) :
  u <> v ->
  login_attempt self now u = ok (msg, self') ->
  FixedWindow.counters self' !! ("login:" +:+ v) =
    FixedWindow.counters self !! ("login:" +:+ v) /\
  forall now' reply,
    (exists s, login_attempt self now' v = ok (reply, s)) <->
    (exists s, login_attempt self' now' v = ok (reply, s)).
Proof.
  intros Huv. unfold login_attempt at 1.
  destruct (FixedWindow.is_allowed self now ("login:" +:+ u))
    as [e|[b s1]] eqn:Hcall; [discriminate|].
  rewrite bind_ok. cbn [fst snd]. intros Hreply.
  assert (Hs1 : s1 = self') by (destruct b; injection Hreply; auto). subst s1.
  unfold FixedWindow.is_allowed in Hcall.
  destruct (floordiv now (FixedWindow.window_size self)) as [e|w];
    [discriminate|]. rewrite bind_ok in Hcall.
  pose proof (getitem_frame FixedWindow.default (FixedWindow.counters self)
                ("login:" +:+ u)) as (_ & _ & Hother).
  destruct (getitem _ _ ("login:" +:+ u)) as [r d]. cbn [snd] in Hother.
  assert (Hne : "login:" +:+ v <> "login:" +:+ u).
  { intros H. apply Huv. symmetry. exact (login_key_inj _ _ H). }
  assert (Hframe :
    FixedWindow.limit self' = FixedWindow.limit self /\
    FixedWindow.window_size self' = FixedWindow.window_size self /\
    FixedWindow.counters self' !! ("login:" +:+ v) =
      FixedWindow.counters self !! ("login:" +:+ v)).
  { destruct (_ <? _); injection Hcall as _ <-; cbn;
      (split; [reflexivity|]; split; [reflexivity|]);
      rewrite lookup_insert_ne by congruence; exact (Hother _ Hne). }
  destruct Hframe as (Hlim & Hws & Hrec). split; [exact Hrec|].
  intros now' reply. unfold login_attempt.
  destruct (floordiv now' (FixedWindow.window_size self)) as [e|w'] eqn:Hw'.
  - unfold FixedWindow.is_allowed. rewrite Hws, Hw'. cbn.
    split; intros [s Hs]; discriminate.
  - rewrite (fixed_is_allowed_lookup self now' _ w' Hw').
    assert (Hw'' : floordiv now' (FixedWindow.window_size self') = ok w')
      by (rewrite Hws; exact Hw').
    rewrite (fixed_is_allowed_lookup self' now' _ w' Hw''). cbv zeta.
    rewrite !bind_ok. cbn [fst snd].
    assert (Hc : fixed_effective_count self' ("login:" +:+ v) w' =
                 fixed_effective_count self ("login:" +:+ v) w').
    { unfold fixed_effective_count. rewrite Hrec. reflexivity. }
    rewrite Hc, Hlim.
    destruct (fixed_effective_count self ("login:" +:+ v) w' <?
              FixedWindow.limit self);
      split; intros [s Hs]; unfold ok in Hs; injection Hs as <- _;
      eexists; reflexivity.
Qed.

Lemma login_attempt_users_independent_witness :
  exists s,
    login_attempt login_used_up 10 "bob" =
      ok ("Login attempt allowed"%string, s) /\
    FixedWindow.counters s !! "login:ann"%string =
      FixedWindow.counters login_used_up !! "login:ann"%string.
Proof.
  destruct (FixedWindow.is_allowed login_used_up 10 "login:bob")
    as [e|[b s]] eqn:E; vm_compute in E; [discriminate|].
  injection E as <- <-. eexists. split; [reflexivity|].
  eapply (login_attempt_users_independent login_used_up _ 10 "bob" "ann").
  - discriminate.
  - reflexivity.
Defined.

(** [api_endpoint] is one [is_allowed] call of cost 1 on the key
    [user_id:endpoint]: it leaves the limiter as that call does (the
    [get_stats] of the refusal branch changes nothing, the key being there
    by then), answers ["success"] exactly when the call is let through, and
    otherwise reports the key's tokens after the refill, which are below 1. *)
Theorem api_endpoint_one_call (format_1f : Q -> string) (self : TokenBucket.t)
    (now created created' : Q) (user_id endpoint : string) :
  let key := user_id +:+ ":" +:+ endpoint in
  let r := TokenBucket.is_allowed self now created key 1 in
  let reply := api_endpoint format_1f self now created created' user_id endpoint in
  snd reply = snd r /\
  (fst r = true ->
   fst reply = [("status", "success"); ("data", "API response")]%string) /\
  (fst r = false ->
   exists b,
     TokenBucket.buckets (snd r) !! key = Some b /\
     (TokenBucket.tokens b < 1)%Q /\
     TokenBucket.last_refill b = now /\
     fst reply =
       [("status", "rate_limited");
        ("message",
         "Rate limit exceeded. Available tokens: " +:+
         format_1f (TokenBucket.tokens b))]%string).
Proof.
  intros key r reply. unfold reply, api_endpoint. fold key. fold r.
  assert (Hr : exists b,
    TokenBucket.buckets (snd r) !! key = Some b /\
    TokenBucket.last_refill b = now /\
    (fst r = false -> (TokenBucket.tokens b < 1)%Q)).
  { unfold r. rewrite token_is_allowed_lookup. cbn.
    rewrite lookup_insert_eq. eexists. split; [reflexivity|].
    split; [reflexivity|]. cbn.
    destruct (geb _ _) eqn:E; [discriminate|]. intros _.
    apply ltb_lt. unfold geb in E.
    destruct (ltb _ _); [reflexivity|]. discriminate E. }
  destruct Hr as (b & Hb & Hlast & Hlow).
  destruct (token_get_stats_frame (snd r) created' created' key)
    as (Hsame & _ & _ & _). cbv zeta in Hsame.
  assert (Hstats : TokenBucket.get_stats (snd r) created' key =
    ({| TokenBucket.available_tokens := TokenBucket.tokens b;
        TokenBucket.stats_capacity := TokenBucket.capacity (snd r);
        TokenBucket.stats_refill_rate := TokenBucket.refill_rate (snd r);
        TokenBucket.stats_last_refill := TokenBucket.last_refill b |}, snd r)).
  { unfold TokenBucket.get_stats. rewrite (getitem_present _ _ _ _ Hb).
    rewrite token_set_buckets_id. reflexivity. }
  destruct (fst r) eqn:Hfst; cbn [fst snd].
  - split; [reflexivity|]. split; [reflexivity|discriminate].
  - rewrite Hstats. cbn [fst snd TokenBucket.available_tokens].
    split; [reflexivity|]. split; [discriminate|]. intros _.
    exists b. split; [exact Hb|]. split; [exact (Hlow eq_refl)|].
    split; [exact Hlast|reflexivity].
Qed.

(** The key [user_id:endpoint] does not keep its two parts apart: a colon in
    the user id or in the endpoint can make two different pairs share one
    key, and with it one bucket.  The pair [(u:x, e)] is served exactly as
    the pair [(u, x:e)]. *)
Theorem api_endpoint_key_collision (format_1f : Q -> string)
    (self : TokenBucket.t) (now created created' : Q) (u x e : string) :
  api_endpoint format_1f self now created created' (u +:+ ":" +:+ x) e =
  api_endpoint format_1f self now created created' u (x +:+ ":" +:+ e).
Proof.
  unfold api_endpoint.
  assert (Hkey : (u +:+ ":" +:+ x) +:+ ":" +:+ e =
                 u +:+ ":" +:+ (x +:+ ":" +:+ e)).
  { rewrite string_app_assoc. reflexivity. }
  rewrite Hkey. reflexivity.
Qed.

Lemma api_endpoint_one_call_witness :
  exists b,
    (TokenBucket.tokens b < 1)%Q /\
    fst (api_endpoint (fun _ => "0.5"%string) api_used_up (1 # 20) (1 # 20)
           (1 # 20) "user123" "/posts") =
      [("status", "rate_limited");
       ("message", "Rate limit exceeded. Available tokens: 0.5")]%string.
Proof.
  destruct (api_endpoint_one_call (fun _ => "0.5"%string) api_used_up (1 # 20)
              (1 # 20) (1 # 20) "user123" "/posts") as (_ & _ & Hrefused).
  destruct Hrefused as (b & _ & Hlow & _ & Hreply); [reflexivity|].
  exists b. split; [exact Hlow|exact Hreply].
Defined.
